(** * ECS_Py: the [Manager] of [src/ecs/Manager.py], embedded in Rocq

    The Manager is a Python object with five mutable fields.  Every method is
    embedded as a computation in a state-and-exception monad over a record
    with those fields; a raised exception carries the state the method left
    behind, so that what a failed call has already mutated stays observable.

    - a Python [dict] is a [gmap], a Python [set] a [gset];
    - entity ids are Python ints, hence [Z];
    - component classes, component instances, system classes and system
      instances are supplied by the application: they are parameters of the
      development, and so is the [process] method of a system, which
      [ecs.SystemTemplate] leaves to its subclasses;
    - the order in which a Python [set] is iterated is not specified by the
      language, and in CPython it depends on how the set object was built
      and not only on its members: it is a parameter, [set_iter] for the
      sets that the Manager stores and [intersection_iter] for the set that
      [set.intersection] builds anew in [get_components]; the theorems only
      assume of an order that it enumerates the set;
    - a Python [dict] is iterated in insertion order, which a [gmap] does
      not record: where the code iterates a row, the model takes the keys in
      the order of [map_to_list], and the theorems state nothing that
      depends on that order. *)

From stdpp Require Import gmap list fin_maps fin_sets sorting.
From Stdlib Require Import ZArith Lia.

(** Exceptions a Manager method can raise or let through. *)
Inductive exn : Type :=
  | KeyError
  | TypeError
  | AssertionError
  | ValueError
  | Exception (tag : nat).

(** The value of the [Manager] attribute of a system instance. *)
Inductive back_ref : Type :=
  | RefSelf
  | RefNone.

Section Ecs.

(** Component classes ([type(component)], used as dict keys) and
    component instances. *)
Context {CType : Type} `{Countable CType}.
Context {Component : Type} (type_of : Component → CType).

(** System instances are compared by identity ([list.remove] uses [==],
    which is identity for objects that do not override it); [sys_type]
    is [type(system)]. *)
Context {SysRef : Type} `{Countable SysRef}.
Context {SType : Type} `{EqDecision SType} (sys_type : SysRef → SType).

(** [issubclass(cls, ecs.SystemTemplate)]. *)
Context (is_SystemTemplate : SType → bool).

(** The extra arguments of [Manager.process]. *)
Context {Args : Type}.

(** Iteration order of a Python set that the Manager stores (an index set,
    the pending set). *)
Context (set_iter : gset Z → list Z).

(** Iteration order of the set that [set.intersection] returns: a new set
    object, whose order need not be that of any of the sets it was computed
    from, even when it has the members of one of them. *)
Context (intersection_iter : gset Z → list Z).

(** ** State *)

(** The five fields of [Manager.__init__], and [sys_Manager], the
    [Manager] attribute of the system objects (written by [add_system] and
    [remove_system], shared by every occurrence of an instance in
    [_systems]). *)
Record Manager : Type := mkManager {
  _systems : list SysRef;
  _next_entity_id : Z;
  _components : gmap CType (gset Z);
  _entities : gmap Z (gmap CType Component);
  _dead_entities : gset Z;
  sys_Manager : gmap SysRef back_ref
}.

(** [Manager()] *)
Definition init : Manager :=
  mkManager [] 0%Z ∅ ∅ ∅ ∅.

Definition set_systems (l : list SysRef) (m : Manager) : Manager :=
  mkManager l (_next_entity_id m) (_components m) (_entities m)
            (_dead_entities m) (sys_Manager m).

Definition set_next_entity_id (n : Z) (m : Manager) : Manager :=
  mkManager (_systems m) n (_components m) (_entities m)
            (_dead_entities m) (sys_Manager m).

Definition set_components (c : gmap CType (gset Z)) (m : Manager) : Manager :=
  mkManager (_systems m) (_next_entity_id m) c (_entities m)
            (_dead_entities m) (sys_Manager m).

Definition set_entities (e : gmap Z (gmap CType Component)) (m : Manager)
  : Manager :=
  mkManager (_systems m) (_next_entity_id m) (_components m) e
            (_dead_entities m) (sys_Manager m).

Definition set_dead_entities (d : gset Z) (m : Manager) : Manager :=
  mkManager (_systems m) (_next_entity_id m) (_components m) (_entities m)
            d (sys_Manager m).

Definition set_sys_Manager (h : gmap SysRef back_ref) (m : Manager) : Manager :=
  mkManager (_systems m) (_next_entity_id m) (_components m) (_entities m)
            (_dead_entities m) h.

(** ** The monad of Manager methods *)

Inductive outcome (A : Type) : Type :=
  | Return (a : A) (m : Manager)
  | Raise (e : exn) (m : Manager).
Arguments Return {A} a m.
Arguments Raise {A} e m.

Definition final {A} (o : outcome A) : Manager :=
  match o with Return _ m => m | Raise _ m => m end.

Definition raised {A} (o : outcome A) : Prop :=
  match o with Return _ _ => False | Raise _ _ => True end.

Definition M (A : Type) : Type := Manager → outcome A.

Definition ret {A} (a : A) : M A := λ m, Return a m.

Definition bind {A B} (c : M A) (k : A → M B) : M B :=
  λ m, match c m with
       | Return a m' => k a m'
       | Raise e m' => Raise e m'
       end.

Definition raise {A} (e : exn) : M A := λ m, Raise e m.

Definition get : M Manager := λ m, Return m m.

Definition modify (f : Manager → Manager) : M unit := λ m, Return tt (f m).

Notation "x <- c1 ;; c2" := (bind c1 (λ x, c2))
  (at level 100, c1 at next level, right associativity).
Notation "c1 ;;; c2" := (bind c1 (λ _, c2))
  (at level 100, right associativity).

(** [for x in l: body(x)] over a list that the body does not mutate. *)
Fixpoint for_each {A} (l : list A) (body : A → M unit) : M unit :=
  match l with
  | [] => ret tt
  | x :: l' => body x ;;; for_each l' body
  end.

(** [d[k]] for a dict [d]: [KeyError] when [k] is absent. *)
Definition getitem {K V} `{Countable K} (d : gmap K V) (k : K) : M V :=
  match d !! k with
  | Some v => ret v
  | None => raise KeyError
  end.

(** ** Entities and components *)

(** [clear_database] *)
Definition clear_database : M unit :=
  modify (set_components ∅) ;;;
  modify (set_entities ∅) ;;;
  modify (set_dead_entities ∅) ;;;
  modify (set_next_entity_id 0%Z).

(** [add_component_to_entity] *)
Definition add_component_to_entity (component_instance : Component)
    (entity : Z) : M unit :=
  let component_type := type_of component_instance in
  (m <- get ;;
   if decide (component_type ∈ dom (_components m)) then ret tt
   else modify (set_components (<[component_type := ∅]> (_components m)))) ;;;
  (m <- get ;;
   s <- getitem (_components m) component_type ;;
   modify (set_components
             (<[component_type := {[entity]} ∪ s]> (_components m)))) ;;;
  (m <- get ;;
   if decide (entity ∈ dom (_entities m)) then ret tt
   else modify (set_entities (<[entity := ∅]> (_entities m)))) ;;;
  (m <- get ;;
   row <- getitem (_entities m) entity ;;
   modify (set_entities
             (<[entity := <[component_type := component_instance]> row]>
                (_entities m)))).

(** [new_entity] *)
Definition new_entity (components : list Component) : M Z :=
  modify (λ m, set_next_entity_id (_next_entity_id m + 1)%Z m) ;;;
  modify (λ m, set_entities (<[_next_entity_id m := ∅]> (_entities m)) m) ;;;
  for_each components
    (λ component, m <- get ;;
                  add_component_to_entity component (_next_entity_id m)) ;;;
  (m <- get ;; ret (_next_entity_id m)).

(** [self._components[component_type].discard(entity)] followed by
    [if not self._components[component_type]: del ...], the two statements
    shared by [remove_entity] and [remove_component_from_entity]. *)
Definition discard_from_index (component_type : CType) (entity : Z)
  : M unit :=
  (m <- get ;;
   s <- getitem (_components m) component_type ;;
   modify (set_components
             (<[component_type := s ∖ {[entity]}]> (_components m)))) ;;;
  (m <- get ;;
   s <- getitem (_components m) component_type ;;
   if decide (s = ∅)
   then modify (set_components (delete component_type (_components m)))
   else ret tt).

(** [del d[k]] on the entity table. *)
Definition del_entity (entity : Z) : M unit :=
  m <- get ;;
  _ <- getitem (_entities m) entity ;;
  modify (set_entities (delete entity (_entities m))).

(** The keys of a row, each once.  The loop of [remove_entity] visits them
    in the insertion order of the dict; the order only matters to the state
    that the loop leaves behind when it raises on a type without index set,
    after the types before it. *)
Definition row_keys (row : gmap CType Component) : list CType :=
  (map_to_list row).*1.

(** [remove_entity] *)
Definition remove_entity (entity : Z) (immediate : bool) : M unit :=
  if immediate then
    (m <- get ;;
     row <- getitem (_entities m) entity ;;
     for_each (row_keys row)
       (λ component_type, discard_from_index component_type entity)) ;;;
    del_entity entity
  else
    modify (λ m, set_dead_entities ({[entity]} ∪ _dead_entities m) m).

(** [get_component_from_entity] *)
Definition get_component_from_entity (component_type : CType) (entity : Z)
  : M Component :=
  m <- get ;;
  row <- getitem (_entities m) entity ;;
  getitem row component_type.

(** [get_all_components_from_entity]: the values of the row, each once; the
    code returns them in the insertion order of the dict. *)
Definition get_all_components_from_entity (entity : Z) : M (list Component) :=
  m <- get ;;
  row <- getitem (_entities m) entity ;;
  ret (map_to_list row).*2.

(** [has_component] *)
Definition has_component (entity : Z) (component_type : CType) : M bool :=
  m <- get ;;
  row <- getitem (_entities m) entity ;;
  ret (bool_decide (component_type ∈ dom row)).

(** [remove_component_from_entity] *)
Definition remove_component_from_entity (component_type : CType)
    (entity : Z) : M unit :=
  discard_from_index component_type entity ;;;
  (m <- get ;;
   row <- getitem (_entities m) entity ;;
   _ <- getitem row component_type ;;
   modify (set_entities
             (<[entity := delete component_type row]> (_entities m)))) ;;;
  (m <- get ;;
   row <- getitem (_entities m) entity ;;
   if decide (row = ∅)
   then modify (set_entities (delete entity (_entities m)))
   else ret tt).

(** ** Queries

    [get_component] and [get_components] are generators.  A generator is
    embedded by what a full iteration over it produces on a state that is
    not mutated meanwhile: the values yielded, and the exception that ended
    the iteration, if any. *)

Definition yields (A : Type) : Type := (list A * option exn)%type.

Definition yield {A} (a : A) (rest : yields A) : yields A :=
  (a :: rest.1, rest.2).

(** [entity_db[entity][component_type]] *)
Definition component_of (m : Manager) (entity : Z) (component_type : CType)
  : option Component :=
  row ← _entities m !! entity; row !! component_type.

(** [get_component]: a [KeyError] of the lookup leaves the generator. *)
Fixpoint get_component_loop (m : Manager) (component_type : CType)
    (entities : list Z) : yields (Z * Component) :=
  match entities with
  | [] => ([], None)
  | entity :: rest =>
      match component_of m entity component_type with
      | Some c => yield (entity, c) (get_component_loop m component_type rest)
      | None => ([], Some KeyError)
      end
  end.

Definition get_component (component_type : CType) (m : Manager)
  : yields (Z * Component) :=
  get_component_loop m component_type
    (match _components m !! component_type with
     | Some s => set_iter s
     | None => []
     end).

(** [set.intersection] applied to the unpacked list of sets: a [TypeError]
    when the list is empty. *)
Definition set_intersection (sets : list (gset Z)) : option (gset Z) :=
  match sets with
  | [] => None
  | s :: rest => Some (foldl (∩) s rest)
  end.

(** [get_components]: the body is inside [try: ... except KeyError: pass],
    so a [KeyError] ends the iteration silently.  The loop runs over the
    set that [set.intersection] has just built. *)
Fixpoint get_components_loop (m : Manager) (component_types : list CType)
    (entities : list Z) : yields (Z * list Component) :=
  match entities with
  | [] => ([], None)
  | entity :: rest =>
      match mapM (component_of m entity) component_types with
      | Some cs =>
          yield (entity, cs) (get_components_loop m component_types rest)
      | None => ([], None)
      end
  end.

Definition get_components (component_types : list CType) (m : Manager)
  : yields (Z * list Component) :=
  match mapM (λ component_type, _components m !! component_type)
             component_types with
  | None => ([], None)
  | Some sets =>
      match set_intersection sets with
      | None => ([], Some TypeError)
      | Some s =>
          get_components_loop m component_types (intersection_iter s)
      end
  end.

(** ** Systems *)

(** [add_system] *)
Definition add_system (system_instance : SysRef) : M unit :=
  (if is_SystemTemplate (sys_type system_instance) then ret tt
   else raise AssertionError) ;;;
  modify (λ m, set_sys_Manager
                 (<[system_instance := RefSelf]> (sys_Manager m)) m) ;;;
  modify (λ m, set_systems (_systems m ++ [system_instance]) m).

(** [list.remove(x)]: drops the first element equal to [x]; [None] stands
    for the [ValueError] of an absent [x]. *)
Fixpoint list_remove (x : SysRef) (l : list SysRef) : option (list SysRef) :=
  match l with
  | [] => None
  | y :: l' =>
      if decide (y = x) then Some l'
      else cons y <$> list_remove x l'
  end.

(** [remove_system].  The loop mutates the list it iterates: a Python list
    iterator keeps an index [i], stops when [i] reaches the current length
    and otherwise hands out the element at [i] and increments [i].  The
    fuel bounds the number of iterations; [None] means it ran out. *)
Fixpoint remove_system_loop (fuel i : nat) (system_type : SType)
    (m : Manager) : option (outcome unit) :=
  match fuel with
  | O => None
  | S fuel' =>
      match _systems m !! i with
      | None => Some (Return tt m)
      | Some system =>
          if decide (sys_type system = system_type) then
            let m1 :=
              set_sys_Manager (<[system := RefNone]> (sys_Manager m)) m in
            match list_remove system (_systems m1) with
            | None => Some (Raise ValueError m1)
            | Some l =>
                remove_system_loop fuel' (S i) system_type (set_systems l m1)
            end
          else remove_system_loop fuel' (S i) system_type m
      end
  end.

Definition remove_system (system_type : SType) (m : Manager)
  : option (outcome unit) :=
  remove_system_loop (S (length (_systems m))) 0 system_type m.

(** One iteration of the loop of [remove_system] that finds a match: the
    back-reference of some system of the type is cleared and its first
    occurrence leaves the list. *)
Definition removes_one (system_type : SType) (m m' : Manager) : Prop :=
  ∃ system l,
    sys_type system = system_type ∧
    list_remove system (_systems m) = Some l ∧
    m' = set_systems l
           (set_sys_Manager (<[system := RefNone]> (sys_Manager m)) m).

(** ** The tick *)

(** [system.process( *args )], supplied by the application: it may call
    back into the Manager, and it may raise. *)
Context (system_process : SysRef → Args → Manager → outcome unit).

(** The first half of [process]: the pending deletions. *)
Definition reconcile : M unit :=
  m <- get ;;
  if decide (_dead_entities m = ∅) then ret tt
  else
    for_each (set_iter (_dead_entities m))
      (λ entity, remove_entity entity true) ;;;
    modify (set_dead_entities ∅).

(** One call of a system's [process] as the Manager makes it. *)
Record call : Type := mkCall {
  call_system : SysRef;
  call_args : Args;
  call_state : Manager
}.

(** The second half of [process]: [for system in self._systems:
    system.process( *args )], again a loop by index over a list that the
    body may change.  The result lists the calls made, in order. *)
Fixpoint dispatch (fuel i : nat) (args : Args) (m : Manager)
  : option (list call * outcome unit) :=
  match fuel with
  | O => None
  | S fuel' =>
      match _systems m !! i with
      | None => Some ([], Return tt m)
      | Some system =>
          match system_process system args m with
          | Raise e m' => Some ([mkCall system args m], Raise e m')
          | Return _ m' =>
              '(calls, o) ← dispatch fuel' (S i) args m';
              Some (mkCall system args m :: calls, o)
          end
      end
  end.

(** [process] *)
Definition process (fuel : nat) (args : Args) (m : Manager)
  : option (list call * outcome unit) :=
  match reconcile m with
  | Raise e m' => Some ([], Raise e m')
  | Return _ m' => dispatch fuel 0 args m'
  end.

(** ** Observations and invariants *)

(** What the caller of a method sees: the value returned or the exception. *)
Definition result {A} (o : outcome A) : A + exn :=
  match o with
  | Return a _ => inl a
  | Raise e _ => inr e
  end.

(** Every member of a type's index set has that type in its table row. *)
Definition index_sound (m : Manager) : Prop :=
  ∀ component_type s entity,
    _components m !! component_type = Some s → entity ∈ s →
    is_Some (component_of m entity component_type).

(** Every type of a table row lists the entity in its index set. *)
Definition index_complete (m : Manager) : Prop :=
  ∀ entity row component_type,
    _entities m !! entity = Some row → is_Some (row !! component_type) →
    ∃ s, _components m !! component_type = Some s ∧ entity ∈ s.

(** [_components] holds no empty index set. *)
Definition no_empty_index (m : Manager) : Prop :=
  ∀ component_type s, _components m !! component_type = Some s → s ≠ ∅.

(** The bidirectional consistency of the index and the entity table. *)
Definition consistent (m : Manager) : Prop :=
  index_sound m ∧ index_complete m ∧ no_empty_index m.

(** The entity has no table row and is a member of no index set. *)
Definition gone (entity : Z) (m : Manager) : Prop :=
  _entities m !! entity = None ∧
  ∀ component_type s,
    _components m !! component_type = Some s → entity ∉ s.

(** An index set after [discard(entity)] and the deletion of an emptied
    set: [None] when the set is deleted. *)
Definition purge (entity : Z) (s : gset Z) : option (gset Z) :=
  if decide (s ∖ {[entity]} = ∅) then None else Some (s ∖ {[entity]}).

(** The state [remove_entity(e, immediate=True)] produces from an entity
    that holds the row [row], described by its lookups. *)
Definition removed (e : Z) (row : gmap CType Component) (m m' : Manager)
  : Prop :=
  _entities m' = delete e (_entities m) ∧
  (∀ T, _components m' !! T =
        if decide (is_Some (row !! T)) then _components m !! T ≫= purge e
        else _components m !! T) ∧
  _systems m' = _systems m ∧
  _next_entity_id m' = _next_entity_id m ∧
  _dead_entities m' = _dead_entities m ∧
  sys_Manager m' = sys_Manager m.

(** A method call that raised left the state as it found it. *)
Definition atomic {A} (m : Manager) (o : outcome A) : Prop :=
  raised o → final o = m.


(** The calls [system.process( *args )] for the systems of the list, made
    one after the other from the state [m], each from the state the call
    before it left. *)
Fixpoint calls_of (systems : list SysRef) (args : Args) (m : Manager)
  : list call :=
  match systems with
  | [] => []
  | system :: rest =>
      mkCall system args m ::
      calls_of rest args (final (system_process system args m))
  end.

(** The state after those calls. *)
Fixpoint state_after (systems : list SysRef) (args : Args) (m : Manager)
  : Manager :=
  match systems with
  | [] => m
  | system :: rest =>
      state_after rest args (final (system_process system args m))
  end.

(** Each of those calls returns normally and leaves the registry as it
    is: a condition on the calls of one tick, not on what a system would do
    in a state the tick does not reach. *)
Fixpoint calls_return (systems : list SysRef) (args : Args) (m : Manager)
  : Prop :=
  match systems with
  | [] => True
  | system :: rest =>
      match system_process system args m with
      | Return _ m' => _systems m' = _systems m ∧ calls_return rest args m'
      | Raise _ _ => False
      end
  end.

(** ** Sequences of [new_entity] and [remove_entity(e, immediate=True)] *)

Inductive command : Type :=
  | Create (components : list Component)
  | Destroy (entity : Z).

(** Runs the calls in order, the caller going on after an exception, and
    collects the ids that [new_entity] returned. *)
Fixpoint run (commands : list command) (m : Manager) : list Z * Manager :=
  match commands with
  | [] => ([], m)
  | Create components :: rest =>
      match new_entity components m with
      | Return entity m' =>
          let r := run rest m' in (entity :: r.1, r.2)
      | Raise _ m' => run rest m'
      end
  | Destroy entity :: rest =>
      run rest (final (remove_entity entity true m))
  end.

(** ** Further observations, for the rest of the methods *)

(** The entity is a member of the type's index set. *)
Definition indexed (m : Manager) (component_type : CType) (entity : Z)
  : Prop :=
  ∃ s, _components m !! component_type = Some s ∧ entity ∈ s.

(** Every component of a row is stored under its own class. *)
Definition well_typed (m : Manager) : Prop :=
  ∀ entity row component_type c,
    _entities m !! entity = Some row →
    row !! component_type = Some c →
    type_of c = component_type.

(** The table-to-index half of the consistency, with the absence of empty
    index sets. *)
Definition table_indexed (m : Manager) : Prop :=
  index_complete m ∧ no_empty_index m.

(** Some pending entity has no table row. *)
Definition stale_pending (m : Manager) : Prop :=
  ∃ entity, entity ∈ _dead_entities m ∧ _entities m !! entity = None.

(** A closed form of the loop of [remove_system] on a list without repeated
    instance: a match is dropped and the element after it is passed over,
    whatever its type. *)
Fixpoint skipping_removal (system_type : SType) (l : list SysRef)
  : list SysRef :=
  match l with
  | [] => []
  | system :: rest =>
      if decide (sys_type system = system_type) then
        match rest with
        | [] => []
        | next :: rest' => next :: skipping_removal system_type rest'
        end
      else system :: skipping_removal system_type rest
  end.

End Ecs.

Arguments Return {_ _ _ _ _ _ _ _} a m.
Arguments Raise {_ _ _ _ _ _ _ _} e m.

(** ** A concrete application

    Three component classes, components that carry a number, system
    instances named by numbers (odd ones of class [Movement], even ones of
    class [Render]). *)
Module Demo.

Inductive ctype : Type := Position | Velocity | Health.

#[global] Instance ctype_eq_dec : EqDecision ctype.
Proof. solve_decision. Defined.

Definition ctype_code (t : ctype) : nat :=
  match t with Position => 0 | Velocity => 1 | Health => 2 end.

Definition ctype_of_code (n : nat) : ctype :=
  match n with 0 => Position | 1 => Velocity | _ => Health end.

#[global] Instance ctype_countable : Countable ctype.
Proof.
  apply (inj_countable' ctype_code ctype_of_code). by intros [].
Defined.

Record component : Type := Comp { class_of : ctype; value : Z }.

Inductive stype : Type := Movement | Render.

#[global] Instance stype_eq_dec : EqDecision stype.
Proof. solve_decision. Defined.

Definition sys_type (system : nat) : stype :=
  if Nat.odd system then Movement else Render.

Definition is_SystemTemplate (t : stype) : bool := true.

(** A set of small non-negative ints is visited by CPython in ascending
    order (an int hashes to itself and the table is larger than the ints). *)
Definition ascending (s : gset Z) : list Z := merge_sort Z.le (elements s).

Abbreviation manager := (@Manager ctype _ _ component nat _ _).

(** A system whose [process] does nothing. *)
Definition idle (system : nat) (args : list Z) (m : manager) : outcome unit :=
  Return tt m.

Definition fresh : manager := init.

(** [m.add_component_to_entity(Position(7), 1)] on a fresh Manager: the id 1
    has not been issued by [new_entity] yet. *)
Definition early_attach : manager :=
  final (add_component_to_entity class_of (Comp Position 7) 1 fresh).

(** [e = m.new_entity(Position(7)); m.remove_component_from_entity(Position, e)] *)
Definition stripped : manager :=
  final (remove_component_from_entity Position 1
           (final (new_entity class_of [Comp Position 7] fresh))).

(** Systems 1, 2, 3 registered in this order: [Movement], [Render],
    [Movement]. *)
Definition three_systems : manager :=
  final (add_system sys_type is_SystemTemplate 3
    (final (add_system sys_type is_SystemTemplate 2
      (final (add_system sys_type is_SystemTemplate 1 fresh))))).

(** Entities 1 and 2 hold components. *)
Definition two_entities : manager :=
  final (new_entity class_of [Comp Position 3; Comp Velocity 4]
    (final (new_entity class_of [Comp Position 1; Comp Velocity 2] fresh))).


(** Entities 1 and 2 are both marked for deletion. *)
Definition both_pending : manager :=
  final (remove_entity 2 false (final (remove_entity 1 false two_entities))).

(** Entity 1 is marked for deletion, and so is the id 2 that was never
    issued. *)
Definition live_then_stale : manager :=
  final (remove_entity 2 false
    (final (remove_entity 1 false
      (final (new_entity class_of [Comp Position 1] fresh))))).

(** Entities 1 and 2 are both marked for deletion, and systems 1 and 2 are
    registered. *)
Definition busy : manager :=
  final (add_system sys_type is_SystemTemplate 2
    (final (add_system sys_type is_SystemTemplate 1 both_pending))).

(** Systems 1 and 2 registered in this order: [Movement], [Render]. *)
Definition two_systems : manager :=
  final (add_system sys_type is_SystemTemplate 2
    (final (add_system sys_type is_SystemTemplate 1 fresh))).


(** After the defect of [new_entity]: 1 is in the index set of [Position]
    and its row is empty. *)
Definition dangling : manager :=
  final (new_entity class_of [] early_attach).

(** One system is registered and an unknown id is marked for deletion. *)
Definition stale_only : manager :=
  final (remove_entity 1 false
    (final (add_system sys_type is_SystemTemplate 1 fresh))).


(** Another iteration order of a set. *)
Definition descending (s : gset Z) : list Z := reverse (ascending s).

(** Systems whose [process] raises when an entity is pending, and does
    nothing otherwise. *)
Definition wary (system : nat) (args : list Z) (m : manager)
  : outcome unit :=
  if decide (_dead_entities m = ∅) then Return tt m
  else Raise (Exception 2) m.

End Demo.

(** * Properties *)

Section EcsFacts.

Context {CType : Type} `{Countable CType}.
Context {Component : Type}.
Context {SysRef : Type} `{Countable SysRef}.
Context {SType : Type} `{EqDecision SType} (sys_type : SysRef → SType).

Implicit Types m : @Manager CType _ _ Component SysRef _ _.
Implicit Types entity e : Z.
Implicit Types T : CType.
Implicit Types st : SType.

#[local] Arguments remove_entity : simpl never.
#[local] Arguments add_component_to_entity : simpl never.
#[local] Arguments discard_from_index : simpl never.
#[local] Arguments remove_component_from_entity : simpl never.
#[local] Arguments new_entity : simpl never.
#[local] Arguments reconcile : simpl never.

Ltac monad_unfold :=
  unfold bind, get, modify, ret, raise, getitem; simpl.

(** ** [discard_from_index] and [remove_entity] *)

Lemma discard_from_index_eq T e m :
  discard_from_index T e m =
  match _components m !! T with
  | None => Raise KeyError m
  | Some s =>
      Return tt
        (set_components
           (match purge e s with
            | None => delete T (_components m)
            | Some s' => <[T := s']> (_components m)
            end) m)
  end.
Proof.
  unfold discard_from_index, purge. monad_unfold.
  destruct (_components m !! T) as [s|] eqn:Hs; simpl; [|done].
  rewrite lookup_insert_eq. simpl.
  destruct (decide (s ∖ {[e]} = ∅)); simpl; [|done].
  unfold set_components. simpl. by rewrite delete_insert_eq.
Qed.

Lemma discard_loop e ks : ∀ m,
  NoDup ks →
  (∀ T, T ∈ ks → is_Some (_components m !! T)) →
  ∃ comps,
    for_each ks (λ T, discard_from_index T e) m =
      Return tt (set_components comps m) ∧
    ∀ T, comps !! T =
         if decide (T ∈ ks) then _components m !! T ≫= purge e
         else _components m !! T.
Proof.
  induction ks as [|k ks IH]; intros m Hnd Hks.
  - exists (_components m). split; [by destruct m|].
    intros T. by rewrite decide_False by set_solver.
  - apply NoDup_cons in Hnd as [Hk Hnd].
    destruct (Hks k) as [s Hs]; [set_solver|].
    simpl. unfold bind at 1. rewrite discard_from_index_eq, Hs.
    set (m1 := set_components _ m).
    assert (Hm1 : ∀ T, _components m1 !! T =
              if decide (T = k) then purge e s else _components m !! T).
    { intros T. subst m1. simpl.
      destruct (purge e s) as [s'|] eqn:Hp; case_decide; subst;
        by rewrite ?lookup_insert_eq, ?lookup_insert_ne,
                   ?lookup_delete_eq, ?lookup_delete_ne by done. }
    destruct (IH m1 Hnd) as (comps & Hrun & Hcomps).
    { intros T HT. rewrite Hm1, decide_False by set_solver.
      apply Hks. set_solver. }
    exists comps. split; [by rewrite Hrun|].
    intros T. rewrite Hcomps, Hm1.
    destruct (decide (T = k)) as [->|HTk].
    + by rewrite decide_False, decide_True, Hs by set_solver.
    + destruct (decide (T ∈ ks)).
      * by rewrite decide_True by set_solver.
      * by rewrite decide_False by set_solver.
Qed.

Lemma elem_of_row_keys T (row : gmap CType Component) :
  T ∈ row_keys row ↔ is_Some (row !! T).
Proof.
  unfold row_keys. rewrite list_elem_of_fmap. split.
  - intros ([k c] & -> & Hin). apply elem_of_map_to_list in Hin. eauto.
  - intros [c Hc]. exists (T, c). split; [done|].
    by apply elem_of_map_to_list.
Qed.

Lemma remove_entity_missing e m :
  _entities m !! e = None → remove_entity e true m = Raise KeyError m.
Proof. intros He. unfold remove_entity. monad_unfold. by rewrite He. Qed.

Lemma remove_entity_immediate_eq e row m :
  _entities m !! e = Some row →
  index_complete m →
  ∃ comps,
    remove_entity e true m =
      Return tt
        (set_entities (delete e (_entities m)) (set_components comps m)) ∧
    ∀ T, comps !! T =
         if decide (is_Some (row !! T)) then _components m !! T ≫= purge e
         else _components m !! T.
Proof.
  intros Hrow Hc.
  destruct (discard_loop e (row_keys row) m) as (comps & Hrun & Hcomps).
  { apply NoDup_fst_map_to_list. }
  { intros T HT. apply elem_of_row_keys in HT.
    destruct (Hc _ _ _ Hrow HT) as (s & -> & _). eauto. }
  exists comps. split.
  - unfold remove_entity, del_entity. monad_unfold. rewrite Hrow. simpl.
    rewrite Hrun. simpl. by rewrite Hrow.
  - intros T. rewrite Hcomps.
    destruct (decide (T ∈ row_keys row)) as [Hin|Hin];
      rewrite elem_of_row_keys in Hin.
    + by rewrite decide_True.
    + by rewrite decide_False.
Qed.

Lemma purge_Some e s s' :
  purge e s = Some s' ↔ s' = s ∖ {[e]} ∧ s' ≠ ∅.
Proof.
  unfold purge. case_decide; split; try done.
  - intros [-> ?]. done.
  - intros [= <-]. done.
  - intros [-> ?]. done.
Qed.

Lemma remove_entity_immediate e row m :
  _entities m !! e = Some row →
  index_complete m →
  ∃ m', remove_entity e true m = Return tt m' ∧ removed e row m m'.
Proof.
  intros Hrow Hc.
  destruct (remove_entity_immediate_eq e row m Hrow Hc) as (comps & -> & Hl).
  eexists. split; [done|]. by repeat split.
Qed.

Lemma removed_index_complete e row m m' :
  removed e row m m' → index_complete m → index_complete m'.
Proof.
  intros (He & Hc & _) Hcomp x r T. rewrite He, Hc.
  intros Hx HT.
  apply lookup_delete_Some in Hx as [Hne Hx].
  destruct (Hcomp _ _ _ Hx HT) as (s & Hs & Hin). rewrite Hs. simpl.
  assert (purge e s = Some (s ∖ {[e]})) as Hp.
  { apply purge_Some. set_solver. }
  case_decide; [rewrite Hp|]; eexists; split; try done. set_solver.
Qed.

Lemma removed_no_empty_index e row m m' :
  removed e row m m' → no_empty_index m → no_empty_index m'.
Proof.
  intros (He & Hc & _) Hn T s. rewrite Hc.
  case_decide; [|apply Hn].
  destruct (_components m !! T) as [s0|]; simpl; [|done].
  intros Hp. by apply purge_Some in Hp as [_ ?].
Qed.

Lemma removed_index_sound e row m m' :
  _entities m !! e = Some row →
  removed e row m m' → index_sound m → index_sound m'.
Proof.
  intros Hrow (He & Hc & _) Hs T s x. rewrite Hc. unfold component_of.
  rewrite He. intros HT Hx.
  assert (∃ s0, _components m !! T = Some s0 ∧ x ∈ s0 ∧
                (is_Some (row !! T) → x ≠ e)) as (s0 & Hs0 & Hx0 & Hne).
  { case_decide as Hdec.
    - destruct (_components m !! T) as [s0|]; simpl in HT; [|done].
      apply purge_Some in HT as [-> _]. exists s0. set_solver.
    - exists s. done. }
  specialize (Hs _ _ _ Hs0 Hx0). unfold component_of in Hs.
  destruct (decide (x = e)) as [->|Hxe].
  - rewrite Hrow in Hs. simpl in Hs. by destruct (Hne Hs).
  - by rewrite lookup_delete_ne.
Qed.

Lemma removed_consistent e row m m' :
  _entities m !! e = Some row →
  removed e row m m' → consistent m → consistent m'.
Proof.
  intros Hrow Hr (? & ? & ?). split_and!;
    eauto using removed_index_sound, removed_index_complete,
                removed_no_empty_index.
Qed.

Lemma removed_gone e row m m' :
  _entities m !! e = Some row →
  removed e row m m' → index_sound m → gone e m'.
Proof.
  intros Hrow (He & Hc & _) Hs. split.
  - rewrite He. apply lookup_delete_eq.
  - intros T s. rewrite Hc. intros HT Hin.
    case_decide as Hdec.
    + destruct (_components m !! T) as [s0|]; simpl in HT; [|done].
      apply purge_Some in HT as [-> _]. set_solver.
    + specialize (Hs _ _ _ HT Hin). unfold component_of in Hs.
      rewrite Hrow in Hs. simpl in Hs. done.
Qed.

Lemma removed_gone_other e row m m' x :
  removed e row m m' → gone x m → gone x m'.
Proof.
  intros (He & Hc & _) [Hx Hi]. split.
  - rewrite He. apply lookup_delete_None. by right.
  - intros T s. rewrite Hc. intros HT.
    case_decide.
    + destruct (_components m !! T) as [s0|] eqn:Hs0; simpl in HT; [|done].
      apply purge_Some in HT as [-> _]. specialize (Hi _ _ Hs0). set_solver.
    + by apply (Hi T).
Qed.

Lemma discard_from_index_frame T e m :
  let m' := final (discard_from_index T e m) in
  _next_entity_id m' = _next_entity_id m ∧
  _entities m' = _entities m ∧
  _systems m' = _systems m ∧
  _dead_entities m' = _dead_entities m ∧
  sys_Manager m' = sys_Manager m.
Proof.
  rewrite discard_from_index_eq. by destruct (_components m !! T).
Qed.

Lemma discard_loop_frame e ks : ∀ m,
  let m' := final (for_each ks (λ T, discard_from_index T e) m) in
  _next_entity_id m' = _next_entity_id m ∧
  _entities m' = _entities m ∧
  _systems m' = _systems m ∧
  _dead_entities m' = _dead_entities m ∧
  sys_Manager m' = sys_Manager m.
Proof.
  induction ks as [|k ks IH]; intros m; simpl; [done|].
  unfold bind.
  pose proof (discard_from_index_frame k e m) as Hk. simpl in Hk.
  destruct (discard_from_index k e m) as [[] m1|ex m1]; simpl in Hk |- *;
    [|done].
  specialize (IH m1). simpl in IH.
  destruct Hk as (<- & <- & <- & <- & <-). done.
Qed.

Lemma remove_entity_next_entity_id e b m :
  _next_entity_id (final (remove_entity e b m)) = _next_entity_id m.
Proof.
  destruct b; [|done]. unfold remove_entity, del_entity. monad_unfold.
  destruct (_entities m !! e) as [row|] eqn:Hrow; simpl; [|done].
  pose proof (discard_loop_frame e (row_keys row) m) as Hf. simpl in Hf.
  destruct (for_each _ _ m) as [[] m1|ex m1]; simpl in Hf |- *.
  - destruct Hf as (<- & Hent & _). rewrite Hent, Hrow. done.
  - by destruct Hf as (<- & _).
Qed.

Lemma remove_entity_frame e b m :
  let m' := final (remove_entity e b m) in
  _systems m' = _systems m ∧
  _next_entity_id m' = _next_entity_id m ∧
  (b = true → _dead_entities m' = _dead_entities m) ∧
  sys_Manager m' = sys_Manager m.
Proof.
  destruct b; [|done]. unfold remove_entity, del_entity. monad_unfold.
  destruct (_entities m !! e) as [row|] eqn:Hrow; simpl; [|done].
  pose proof (discard_loop_frame e (row_keys row) m) as Hf. simpl in Hf.
  destruct (for_each _ _ m) as [[] m1|ex m1]; simpl in Hf |- *.
  - destruct Hf as (<- & Hent & <- & <- & <-). rewrite Hent, Hrow. done.
  - by destruct Hf as (<- & _ & <- & <- & <-).
Qed.

Lemma remove_entity_return_entities e m m' :
  remove_entity e true m = Return tt m' →
  _entities m' = delete e (_entities m).
Proof.
  unfold remove_entity, del_entity. monad_unfold.
  destruct (_entities m !! e) as [row|] eqn:Hrow; simpl; [|done].
  pose proof (discard_loop_frame e (row_keys row) m) as Hf. simpl in Hf.
  destruct (for_each _ _ m) as [[] m1|ex m1]; simpl in Hf |- *; [|done].
  destruct Hf as (_ & Hent & _). rewrite Hent, Hrow. simpl.
  by intros [= <-].
Qed.

Lemma remove_entity_atomic e b m :
  index_complete m → atomic m (remove_entity e b m).
Proof.
  intros Hc. destruct b; [|by unfold atomic, remove_entity, modify].
  destruct (_entities m !! e) as [row|] eqn:Hrow.
  - destruct (remove_entity_immediate e row m Hrow Hc) as (m' & -> & _).
    by unfold atomic.
  - rewrite remove_entity_missing by done. by unfold atomic.
Qed.

(** ** The loop over the pending deletions *)

Lemma purge_loop_frame es : ∀ m,
  let m' := final (for_each es (λ e, remove_entity e true) m) in
  _systems m' = _systems m ∧
  _next_entity_id m' = _next_entity_id m ∧
  _dead_entities m' = _dead_entities m ∧
  sys_Manager m' = sys_Manager m.
Proof.
  induction es as [|e es IH]; intros m; simpl; [done|].
  unfold bind.
  pose proof (remove_entity_frame e true m) as Hf. simpl in Hf.
  destruct (remove_entity e true m) as [[] m1|ex m1]; simpl in Hf |- *.
  - specialize (IH m1). simpl in IH.
    destruct Hf as (<- & <- & Hd & <-). rewrite <- Hd by done. done.
  - destruct Hf as (<- & <- & Hd & <-). rewrite <- Hd by done. done.
Qed.

Lemma purge_loop es : ∀ m,
  NoDup es →
  index_complete m →
  (∀ e, e ∈ es → is_Some (_entities m !! e)) →
  ∃ m',
    for_each es (λ e, remove_entity e true) m = Return tt m' ∧
    index_complete m' ∧
    (no_empty_index m → no_empty_index m') ∧
    (index_sound m → index_sound m') ∧
    (∀ x, gone x m → gone x m') ∧
    (index_sound m → ∀ e, e ∈ es → gone e m') ∧
    (∀ e, e ∈ es → _entities m' !! e = None) ∧
    (∀ x, x ∉ es → _entities m' !! x = _entities m !! x).
Proof.
  induction es as [|e es IH]; intros m Hnd Hc Hlive.
  - exists m. split_and!; try done.
    + by intros _ ? ?%elem_of_nil.
    + by intros ? ?%elem_of_nil.
  - apply NoDup_cons in Hnd as [He Hnd].
    destruct (Hlive e) as [row Hrow]; [by left|].
    destruct (remove_entity_immediate e row m Hrow Hc) as (m1 & Hrun & Hrem).
    destruct (IH m1 Hnd) as (m' & Hloop & Hc' & Hn' & Hs' & Hg' & Hge' & Hr' & Ho').
    { by eapply removed_index_complete. }
    { intros x Hx. destruct Hrem as (-> & _).
      rewrite lookup_delete_ne by (intros ->; done).
      apply Hlive. by right. }
    exists m'. simpl. unfold bind at 1. rewrite Hrun.
    split_and!; [done|done|..].
    + intros Hn. apply Hn'. by eapply removed_no_empty_index.
    + intros Hs. apply Hs'. by eapply removed_index_sound.
    + intros x Hx. apply Hg'. by eapply removed_gone_other.
    + intros Hs x [->|Hx]%elem_of_cons.
      * apply Hg'. by eapply removed_gone.
      * apply Hge'; [|done]. by eapply removed_index_sound.
    + intros x [->|Hx]%elem_of_cons; [|by apply Hr'].
      rewrite Ho' by done. destruct Hrem as (-> & _).
      apply lookup_delete_eq.
    + intros x Hx. apply not_elem_of_cons in Hx as [Hxe Hx].
      rewrite Ho' by done. destruct Hrem as (-> & _).
      by apply lookup_delete_ne.
Qed.

Lemma purge_loop_raises es : ∀ m,
  (∃ e, e ∈ es ∧ _entities m !! e = None) →
  raised (for_each es (λ e, remove_entity e true) m).
Proof.
  induction es as [|x es IH]; intros m (e & He & Hnone).
  - by apply elem_of_nil in He.
  - simpl. unfold bind.
    destruct (remove_entity x true m) as [[] m1|ex m1] eqn:Hrun; [|done].
    apply IH. exists e.
    apply remove_entity_return_entities in Hrun as Hent.
    apply elem_of_cons in He as [->|He].
    + rewrite remove_entity_missing in Hrun by done. done.
    + split; [done|]. rewrite Hent. apply lookup_delete_None. by right.
Qed.

(** ** [remove_component_from_entity] *)

Lemma remove_component_from_entity_eq T e m :
  remove_component_from_entity T e m =
  match _components m !! T with
  | None => Raise KeyError m
  | Some s =>
      let m1 :=
        set_components
          (match purge e s with
           | None => delete T (_components m)
           | Some s' => <[T := s']> (_components m)
           end) m in
      match _entities m !! e with
      | None => Raise KeyError m1
      | Some row =>
          match row !! T with
          | None => Raise KeyError m1
          | Some _ =>
              Return tt
                (set_entities
                   (if decide (delete T row = ∅) then delete e (_entities m)
                    else <[e := delete T row]> (_entities m)) m1)
          end
      end
  end.
Proof.
  unfold remove_component_from_entity. unfold bind at 1.
  rewrite discard_from_index_eq.
  destruct (_components m !! T) as [s|]; [|done]. simpl.
  monad_unfold.
  destruct (_entities m !! e) as [row|]; simpl; [|done].
  destruct (row !! T); simpl; [|done].
  rewrite lookup_insert_eq. simpl.
  case_decide; simpl; [|done].
  unfold set_entities. simpl. by rewrite delete_insert_eq.
Qed.

Lemma set_components_id m : set_components (_components m) m = m.
Proof. by destruct m. Qed.

Lemma remove_component_atomic T e m :
  consistent m → atomic m (remove_component_from_entity T e m).
Proof.
  intros (Hs & _ & Hn). unfold atomic.
  rewrite remove_component_from_entity_eq.
  destruct (_components m !! T) as [s|] eqn:HT; [|done]. simpl.
  assert (component_of m e T = None →
          match purge e s with
          | None => delete T (_components m)
          | Some s' => <[T := s']> (_components m)
          end = _components m) as Hsame.
  { intros Hnone.
    assert (e ∉ s) as Hin.
    { intros Hin. destruct (Hs _ _ _ HT Hin) as [c Hc]. congruence. }
    assert (purge e s = Some s) as ->.
    { apply purge_Some. split; [set_solver|]. by apply (Hn T). }
    by apply insert_id. }
  unfold component_of in Hsame.
  destruct (_entities m !! e) as [row|]; simpl in Hsame |- *.
  - destruct (row !! T); [done|]. intros _.
    rewrite Hsame by done. apply set_components_id.
  - intros _. rewrite Hsame by done. apply set_components_id.
Qed.

Lemma remove_component_consistent T e m :
  consistent m → consistent (final (remove_component_from_entity T e m)).
Proof.
  intros Hcons.
  destruct (remove_component_from_entity T e m) as [[] m'|ex m'] eqn:Hrun;
    simpl.
  2:{ pose proof (remove_component_atomic T e m Hcons) as Hat.
      rewrite Hrun in Hat. simpl in Hat. unfold atomic in Hat. simpl in Hat.
      by rewrite Hat. }
  destruct Hcons as (Hs & Hc & Hn).
  rewrite remove_component_from_entity_eq in Hrun.
  destruct (_components m !! T) as [s|] eqn:HT; [|done]. simpl in Hrun.
  destruct (_entities m !! e) as [row|] eqn:Hrow; [|done].
  destruct (row !! T) as [c|] eqn:HrT; [|done].
  injection Hrun as <-.
  assert (Hcl : ∀ T', _components
            (set_entities
               (if decide (delete T row = ∅) then delete e (_entities m)
                else <[e := delete T row]> (_entities m))
               (set_components
                  (match purge e s with
                   | None => delete T (_components m)
                   | Some s' => <[T := s']> (_components m)
                   end) m)) !! T' =
          if decide (T' = T) then purge e s else _components m !! T').
  { intros T'. simpl.
    destruct (purge e s); case_decide; subst;
      by rewrite ?lookup_insert_eq, ?lookup_insert_ne,
                 ?lookup_delete_eq, ?lookup_delete_ne by done. }
  assert (Hel : ∀ x, _entities
            (set_entities
               (if decide (delete T row = ∅) then delete e (_entities m)
                else <[e := delete T row]> (_entities m))
               (set_components
                  (match purge e s with
                   | None => delete T (_components m)
                   | Some s' => <[T := s']> (_components m)
                   end) m)) !! x =
          if decide (x = e)
          then (if decide (delete T row = ∅) then None
                else Some (delete T row))
          else _entities m !! x).
  { intros x. simpl.
    destruct (decide (delete T row = ∅)); case_decide; subst;
      by rewrite ?lookup_insert_eq, ?lookup_insert_ne,
                 ?lookup_delete_eq, ?lookup_delete_ne by done. }
  set (m' := set_entities _ _) in Hcl, Hel |- *. clearbody m'.
  split_and!.
  - intros T' s' x. unfold component_of. rewrite Hcl, Hel.
    intros HT' Hx.
    assert (∃ s0, _components m !! T' = Some s0 ∧ x ∈ s0 ∧
                  (T' = T → x ≠ e)) as (s0 & Hs0 & Hx0 & Hne).
    { case_decide; subst.
      - apply purge_Some in HT' as [-> _]. exists s. set_solver.
      - exists s'. done. }
    specialize (Hs _ _ _ Hs0 Hx0). unfold component_of in Hs.
    destruct (decide (x = e)) as [->|Hxe]; [|exact Hs].
    rewrite Hrow in Hs. simpl in Hs.
    assert (T' ≠ T) as HTT by (intros ->; by apply Hne).
    assert (delete T row !! T' = row !! T') as Hd
      by (by apply lookup_delete_ne).
    rewrite decide_False.
    + simpl. by rewrite Hd.
    + intros Hemp. rewrite Hemp, lookup_empty in Hd.
      rewrite <- Hd in Hs. by destruct Hs.
  - intros x r T'. rewrite Hcl, Hel. intros Hx HrT'.
    assert (∃ r0, _entities m !! x = Some r0 ∧ is_Some (r0 !! T') ∧
                  (x = e → T' ≠ T)) as (r0 & Hr0 & HT0 & Hne).
    { case_decide; subst.
      - case_decide; [done|]. injection Hx as <-.
        exists row. split; [done|].
        destruct (decide (T' = T)) as [->|HTT].
        + rewrite lookup_delete_eq in HrT'. by destruct HrT'.
        + rewrite lookup_delete_ne in HrT' by done. done.
      - exists r. done. }
    destruct (Hc _ _ _ Hr0 HT0) as (s0 & Hs0 & Hx0).
    destruct (decide (T' = T)) as [->|HTT]; [|eauto].
    assert (s0 = s) as -> by congruence.
    assert (x ≠ e) as Hxe by (intros ->; by apply Hne).
    exists (s ∖ {[e]}). split; [|set_solver].
    apply purge_Some. set_solver.
  - intros T' s'. rewrite Hcl.
    destruct (decide (T' = T)) as [->|HTT]; [|exact (Hn T' s')].
    intros Hp. by apply purge_Some in Hp as [_ ?].
Qed.

(** Removing the only component of an entity deletes its row. *)
Lemma remove_last_component_drops_row T c e s m :
  _components m !! T = Some s →
  _entities m !! e = Some {[T := c]} →
  ∃ m', remove_component_from_entity T e m = Return tt m' ∧
        _entities m' !! e = None.
Proof.
  intros Hs Hrow. rewrite remove_component_from_entity_eq, Hs. simpl.
  rewrite Hrow, lookup_singleton_eq, delete_singleton_eq.
  rewrite decide_True by done.
  eexists. split; [done|]. simpl. apply lookup_delete_eq.
Qed.

(** ** [has_component] *)

Lemma has_component_without_row e T m :
  _entities m !! e = None →
  has_component e T m = Raise KeyError m.
Proof. intros He. unfold has_component. monad_unfold. by rewrite He. Qed.

(** C1 (a defect of the code): for an entity without a table row,
    [has_component] raises [KeyError]; it does not return [False]. *)
Theorem has_component_raises_without_row e T m :
  _entities m !! e = None →
  has_component e T m = Raise KeyError m.
Proof. apply has_component_without_row. Qed.

Lemma has_component_with_row e T row m :
  _entities m !! e = Some row →
  has_component e T m = Return (bool_decide (is_Some (row !! T))) m.
Proof.
  intros He. unfold has_component. monad_unfold. rewrite He. simpl.
  f_equal. apply bool_decide_ext. apply elem_of_dom.
Qed.

(** In a consistent state [has_component] is true exactly for the members
    of the type's index set. *)
Lemma has_component_iff_index_member e T m :
  consistent m →
  has_component e T m = Return true m ↔
  ∃ s, _components m !! T = Some s ∧ e ∈ s.
Proof.
  intros (Hs & Hc & _). split.
  - intros Hhas. destruct (_entities m !! e) as [row|] eqn:Hrow.
    + rewrite (has_component_with_row e T row m Hrow) in Hhas.
      injection Hhas as Hb. apply bool_decide_eq_true_1 in Hb.
      by apply (Hc e row T).
    + by rewrite has_component_without_row in Hhas.
  - intros (s & HT & Hin). specialize (Hs T s e HT Hin).
    unfold component_of in Hs.
    destruct (_entities m !! e) as [row|] eqn:Hrow; simpl in Hs;
      [|by destruct Hs].
    rewrite (has_component_with_row e T row m Hrow).
    by rewrite bool_decide_eq_true_2.
Qed.

(** ** [clear_database] and the initial state *)

Lemma clear_database_eq m :
  clear_database m =
  Return tt (mkManager (_systems m) 0%Z ∅ ∅ ∅ (sys_Manager m)).
Proof. reflexivity. Qed.

Lemma clear_database_consistent m : consistent (final (clear_database m)).
Proof.
  rewrite clear_database_eq. simpl. split_and!.
  - intros T s x. simpl. by rewrite lookup_empty.
  - intros x r T. simpl. by rewrite lookup_empty.
  - intros T s. simpl. by rewrite lookup_empty.
Qed.

Lemma init_consistent :
  consistent (init : @Manager CType _ _ Component SysRef _ _).
Proof.
  split_and!.
  - intros T s x. simpl. by rewrite lookup_empty.
  - intros x r T. simpl. by rewrite lookup_empty.
  - intros T s. simpl. by rewrite lookup_empty.
Qed.

Lemma consistent_ext m m' :
  _entities m' = _entities m →
  _components m' = _components m →
  consistent m → consistent m'.
Proof.
  intros He Hc (Hs & Hcm & Hn). split_and!.
  - intros T s x. unfold component_of. rewrite He, Hc. apply Hs.
  - intros x r T. rewrite He, Hc. apply Hcm.
  - intros T s. rewrite Hc. apply Hn.
Qed.

(** ** The loops of the queries *)



Lemma get_component_loop_total m T es :
  (∀ e, e ∈ es → is_Some (component_of m e T)) →
  ∃ ys, get_component_loop m T es = (ys, None) ∧
        ys.*1 = es ∧
        ∀ e c, (e, c) ∈ ys ↔ e ∈ es ∧ component_of m e T = Some c.
Proof.
  induction es as [|x es IH]; intros Hes; simpl.
  - exists []. split_and!; [done..|].
    intros e c. split; [by intros ?%elem_of_nil|by intros [?%elem_of_nil _]].
  - destruct (Hes x) as [c Hc]; [by left|]. rewrite Hc.
    destruct IH as (ys & -> & Hfst & Hys); [intros; apply Hes; by right|].
    exists ((x, c) :: ys). unfold yield. simpl. split_and!; [done|by f_equal|].
    intros e c'. rewrite !elem_of_cons, Hys. split.
    + intros [[= -> ->]|[? ?]]; auto.
    + intros [[->|?] Hc']; [left; congruence|auto].
Qed.


Lemma get_component_loop_subset m T es x :
  x ∈ (get_component_loop m T es).1.*1 → x ∈ es.
Proof.
  induction es as [|e es IH]; simpl; [by intros ?%elem_of_nil|].
  destruct (component_of m e T); simpl; [|by intros ?%elem_of_nil].
  intros [->|?]%elem_of_cons; [by left|]. right. auto.
Qed.

Lemma get_components_loop_subset m Ts es x :
  x ∈ (get_components_loop m Ts es).1.*1 → x ∈ es.
Proof.
  induction es as [|e es IH]; simpl; [by intros ?%elem_of_nil|].
  destruct (mapM (component_of m e) Ts); simpl; [|by intros ?%elem_of_nil].
  intros [->|?]%elem_of_cons; [by left|]. right. auto.
Qed.

(** ** [remove_system] *)

Lemma list_remove_elem_of (x : SysRef) l :
  x ∈ l → is_Some (list_remove x l).
Proof.
  induction l as [|y l IH]; [by intros ?%elem_of_nil|].
  simpl. destruct (decide (y = x)); [eauto|].
  intros [->|Hin]%elem_of_cons; [done|].
  destruct (IH Hin) as [l' ->]. simpl. eauto.
Qed.

Lemma list_remove_Some (x : SysRef) l l' :
  list_remove x l = Some l' →
  l' `sublist_of` l ∧ length l = S (length l') ∧ x ∈ l.
Proof.
  revert l'. induction l as [|y l IH]; intros l'; simpl; [done|].
  destruct (decide (y = x)) as [->|Hne].
  - intros [= <-]. split_and!; [by apply sublist_cons|done|by left].
  - destruct (list_remove x l) as [k|]; simpl; [|done].
    intros [= <-]. destruct (IH k eq_refl) as (? & ? & ?).
    split_and!; [by apply sublist_skip|simpl; lia|by right].
Qed.

Lemma list_remove_filter (P : SysRef → Prop) `{∀ x, Decision (P x)} x l l' :
  list_remove x l = Some l' → ¬ P x → filter P l' = filter P l.
Proof.
  revert l'. induction l as [|y l IH]; intros l'; simpl; [done|].
  destruct (decide (y = x)) as [->|Hne].
  - intros [= <-] HP. by rewrite filter_cons_False.
  - destruct (list_remove x l) as [k|]; simpl; [|done].
    intros [= <-] HP. rewrite !filter_cons, (IH k) by done. done.
Qed.

Lemma list_remove_app_r (x : SysRef) l1 r :
  x ∉ l1 → list_remove x (l1 ++ r) = (l1 ++.) <$> list_remove x r.
Proof.
  induction l1 as [|y l1 IH]; intros Hx; simpl.
  - by destruct (list_remove x r).
  - apply not_elem_of_cons in Hx as [Hne Hx].
    rewrite decide_False by done. rewrite IH by done.
    by destruct (list_remove x r).
Qed.

Lemma remove_system_loop_steps st : ∀ fuel i m,
  length (_systems m) - i < fuel →
  ∃ m', remove_system_loop sys_type fuel i st m = Some (Return tt m') ∧
        rtc (removes_one sys_type st) m m'.
Proof.
  induction fuel as [|fuel IH]; intros i m Hlen; [lia|].
  simpl. destruct (_systems m !! i) as [s|] eqn:Hs.
  - apply lookup_lt_Some in Hs as Hi.
    destruct (decide (sys_type s = st)) as [Hst|Hst].
    + destruct (list_remove_elem_of s (_systems m)) as [l Hl].
      { by eapply list_elem_of_lookup_2. }
      rewrite Hl. pose proof (list_remove_Some _ _ _ Hl) as (_ & Hlen' & _).
      destruct (IH (S i)
                  (set_systems l
                     (set_sys_Manager (<[s := RefNone]> (sys_Manager m)) m)))
        as (m' & Hrun & Hrtc); [simpl; lia|].
      exists m'. split; [done|].
      eapply rtc_l; [|done]. by exists s, l.
    + apply IH. lia.
  - exists m. split; [done|]. apply rtc_refl.
Qed.

Lemma removes_one_facts st m m' :
  removes_one sys_type st m m' →
  _systems m' `sublist_of` _systems m ∧
  filter (λ s, sys_type s ≠ st) (_systems m') =
    filter (λ s, sys_type s ≠ st) (_systems m) ∧
  (∀ s, sys_Manager m' !! s ≠ Some RefNone →
        sys_Manager m' !! s = sys_Manager m !! s ∧
        filter (λ x, x = s) (_systems m') =
          filter (λ x, x = s) (_systems m)) ∧
  (∀ s, sys_Manager m' !! s = sys_Manager m !! s ∨
        (sys_type s = st ∧ s ∈ _systems m ∧
         sys_Manager m' !! s = Some RefNone)) ∧
  (∀ s, sys_Manager m !! s = Some RefNone →
        sys_Manager m' !! s = Some RefNone) ∧
  _next_entity_id m' = _next_entity_id m ∧
  _components m' = _components m ∧
  _entities m' = _entities m ∧
  _dead_entities m' = _dead_entities m.
Proof.
  intros (x & l & Hst & Hl & ->). simpl.
  pose proof (list_remove_Some _ _ _ Hl) as (Hsub & _ & Hin).
  split_and!; try done.
  - apply (list_remove_filter _ _ _ _ Hl). intros Hx. by apply Hx.
  - intros s Hs. destruct (decide (s = x)) as [->|Hne].
    + by rewrite lookup_insert_eq in Hs.
    + rewrite lookup_insert_ne by done. split; [done|].
      apply (list_remove_filter _ _ _ _ Hl). congruence.
  - intros s. destruct (decide (s = x)) as [->|Hne].
    + right. by rewrite lookup_insert_eq.
    + left. by rewrite lookup_insert_ne.
  - intros s Hs. destruct (decide (s = x)) as [->|Hne].
    + by rewrite lookup_insert_eq.
    + by rewrite lookup_insert_ne.
Qed.

Lemma removes_many_facts st m m' :
  rtc (removes_one sys_type st) m m' →
  _systems m' `sublist_of` _systems m ∧
  filter (λ s, sys_type s ≠ st) (_systems m') =
    filter (λ s, sys_type s ≠ st) (_systems m) ∧
  (∀ s, sys_Manager m' !! s ≠ Some RefNone →
        sys_Manager m' !! s = sys_Manager m !! s ∧
        filter (λ x, x = s) (_systems m') =
          filter (λ x, x = s) (_systems m)) ∧
  (∀ s, sys_Manager m' !! s = sys_Manager m !! s ∨
        (sys_type s = st ∧ s ∈ _systems m ∧
         sys_Manager m' !! s = Some RefNone)) ∧
  (∀ s, sys_Manager m !! s = Some RefNone →
        sys_Manager m' !! s = Some RefNone) ∧
  _next_entity_id m' = _next_entity_id m ∧
  _components m' = _components m ∧
  _entities m' = _entities m ∧
  _dead_entities m' = _dead_entities m.
Proof.
  induction 1 as [m|m m1 m' Hstep _ IH]; [by split_and!; auto|].
  apply removes_one_facts in Hstep
    as (Hsub & Hfil & Hkeep & Hrefs & Hnone & Hid & Hc & He & Hd).
  destruct IH as (Hsub' & Hfil' & Hkeep' & Hrefs' & Hnone' & Hid' & Hc' & He' & Hd').
  split_and!; try congruence.
  - by etrans.
  - intros s Hs. destruct (Hkeep' s Hs) as [Heq Hf].
    destruct (Hkeep s) as [Heq1 Hf1]; [congruence|].
    split; congruence.
  - intros s. destruct (Hrefs' s) as [Heq|(? & Hin & ?)].
    + destruct (Hrefs s) as [Heq1|(? & ? & ?)]; [left; congruence|].
      right. split_and!; [done..|]. congruence.
    + right. split_and!; [done| |done]. by eapply elem_of_sublist.
  - auto.
Qed.





(** ** [add_component_to_entity] and [new_entity] *)

Context (type_of : Component → CType).

Lemma add_component_to_entity_eq c e m :
  add_component_to_entity type_of c e m =
  Return tt
    (set_entities
       (<[e := <[type_of c := c]> (default ∅ (_entities m !! e))]>
          (_entities m))
       (set_components
          (<[type_of c := {[e]} ∪ default ∅ (_components m !! type_of c)]>
             (_components m)) m)).
Proof.
  unfold add_component_to_entity. monad_unfold.
  destruct (decide (type_of c ∈ dom (_components m))) as [Hin|Hin]; simpl.
  - apply elem_of_dom in Hin as [s Hs]. rewrite Hs. simpl.
    destruct (decide (e ∈ dom (_entities m))) as [He|He]; simpl.
    + apply elem_of_dom in He as [row Hrow]. rewrite Hrow. reflexivity.
    + rewrite lookup_insert_eq. simpl.
      apply not_elem_of_dom in He. rewrite He. simpl.
      unfold set_entities, set_components. simpl.
      by rewrite insert_insert_eq.
  - rewrite lookup_insert_eq. simpl.
    apply not_elem_of_dom in Hin. rewrite Hin. simpl.
    destruct (decide (e ∈ dom (_entities m))) as [He|He]; simpl.
    + apply elem_of_dom in He as [row Hrow]. rewrite Hrow. simpl.
      unfold set_entities, set_components. simpl.
      by rewrite insert_insert_eq.
    + rewrite lookup_insert_eq. simpl.
      apply not_elem_of_dom in He. rewrite He. simpl.
      unfold set_entities, set_components. simpl.
      by rewrite !insert_insert_eq.
Qed.

Lemma add_component_index_sound c e m :
  index_sound m →
  index_sound (final (add_component_to_entity type_of c e m)).
Proof.
  intros Hs. rewrite add_component_to_entity_eq. simpl.
  intros T s x. unfold component_of. simpl.
  destruct (decide (T = type_of c)) as [->|HT].
  - rewrite lookup_insert_eq. intros [= <-] Hx.
    destruct (decide (x = e)) as [->|Hxe].
    + rewrite lookup_insert_eq. simpl. rewrite lookup_insert_eq. eauto.
    + rewrite lookup_insert_ne by done.
      destruct (_components m !! type_of c) as [s|] eqn:Hc; simpl in Hx.
      * apply (Hs _ s x Hc). set_solver.
      * set_solver.
  - rewrite lookup_insert_ne by done. intros Hc Hx.
    destruct (decide (x = e)) as [->|Hxe].
    + rewrite lookup_insert_eq. simpl. rewrite lookup_insert_ne by done.
      specialize (Hs _ _ _ Hc Hx). unfold component_of in Hs.
      destruct (_entities m !! e); simpl in Hs |- *; [done|].
      by destruct Hs.
    + rewrite lookup_insert_ne by done. by apply (Hs _ _ _ Hc Hx).
Qed.

Lemma add_component_index_complete c e m :
  index_complete m →
  index_complete (final (add_component_to_entity type_of c e m)).
Proof.
  intros Hc. rewrite add_component_to_entity_eq. simpl.
  intros x row T. simpl.
  destruct (decide (x = e)) as [->|Hxe].
  - rewrite lookup_insert_eq. intros [= <-].
    destruct (decide (T = type_of c)) as [->|HT].
    + intros _. rewrite lookup_insert_eq. eexists; split; [done|set_solver].
    + rewrite !lookup_insert_ne by done. intros HrT.
      destruct (_entities m !! e) as [row|] eqn:Hrow; simpl in HrT.
      * apply (Hc _ _ _ Hrow HrT).
      * rewrite lookup_empty in HrT. by destruct HrT.
  - rewrite lookup_insert_ne by done. intros Hrow HrT.
    destruct (Hc _ _ _ Hrow HrT) as (s & Hs & Hx).
    destruct (decide (T = type_of c)) as [->|HT].
    + rewrite lookup_insert_eq, Hs. simpl. eexists; split; [done|set_solver].
    + rewrite lookup_insert_ne by done. eauto.
Qed.

Lemma add_component_no_empty_index c e m :
  no_empty_index m →
  no_empty_index (final (add_component_to_entity type_of c e m)).
Proof.
  intros Hn. rewrite add_component_to_entity_eq. simpl.
  intros T s. simpl.
  destruct (decide (T = type_of c)) as [->|HT].
  - rewrite lookup_insert_eq. intros [= <-]. set_solver.
  - rewrite lookup_insert_ne by done. apply Hn.
Qed.

Lemma add_component_consistent c e m :
  consistent m → consistent (final (add_component_to_entity type_of c e m)).
Proof.
  intros (? & ? & ?). split_and!;
    eauto using add_component_index_sound, add_component_index_complete,
                add_component_no_empty_index.
Qed.

Lemma attach_loop_spec (P : Manager → Prop) cs : ∀ m,
  (∀ c e m0, P m0 → P (final (add_component_to_entity type_of c e m0))) →
  P m →
  ∃ m',
    for_each cs
      (λ c, bind get (λ m0,
              add_component_to_entity type_of c (_next_entity_id m0))) m =
      Return tt m' ∧
    P m' ∧
    _next_entity_id m' = _next_entity_id m ∧
    _systems m' = _systems m ∧
    _dead_entities m' = _dead_entities m ∧
    sys_Manager m' = sys_Manager m.
Proof.
  induction cs as [|c cs IH]; intros m HP Hm.
  - exists m. by repeat split.
  - simpl. unfold bind at 1. unfold bind at 1. simpl.
    specialize (HP c (_next_entity_id m) m Hm) as Hm1.
    rewrite add_component_to_entity_eq in Hm1 |- *. simpl in Hm1.
    destruct (IH _ HP Hm1) as (m' & Hrun & ? & ? & ? & ? & ?).
    exists m'. by rewrite Hrun.
Qed.

Lemma new_entity_spec (P : Manager → Prop) cs m :
  (∀ c e m0, P m0 → P (final (add_component_to_entity type_of c e m0))) →
  P (set_entities
       (<[(_next_entity_id m + 1)%Z := ∅]> (_entities m))
       (set_next_entity_id (_next_entity_id m + 1)%Z m)) →
  ∃ m',
    new_entity type_of cs m = Return (_next_entity_id m + 1)%Z m' ∧
    P m' ∧
    _next_entity_id m' = (_next_entity_id m + 1)%Z ∧
    _systems m' = _systems m ∧
    _dead_entities m' = _dead_entities m ∧
    sys_Manager m' = sys_Manager m.
Proof.
  intros HP Hm.
  destruct (attach_loop_spec P cs _ HP Hm) as (m' & Hrun & ? & Hid & ? & ? & ?).
  exists m'. split; [|done].
  unfold new_entity. unfold bind at 1. simpl. unfold bind at 1. simpl.
  unfold bind at 1. unfold set_entities at 1 in Hrun. simpl in Hrun.
  unfold set_entities at 1. simpl.
  rewrite Hrun. simpl. monad_unfold. by rewrite Hid.
Qed.

Lemma new_entity_consistent cs m :
  consistent m →
  _entities m !! (_next_entity_id m + 1)%Z = None →
  consistent (final (new_entity type_of cs m)).
Proof.
  intros (Hs & Hc & Hn) Hfresh.
  destruct (new_entity_spec consistent cs m) as (m' & -> & ? & _); [| |done].
  { intros. by apply add_component_consistent. }
  split_and!.
  - intros T s x HT Hx. specialize (Hs T s x HT Hx).
    unfold component_of in Hs |- *. simpl.
    destruct (decide (x = (_next_entity_id m + 1)%Z)) as [->|Hne].
    + rewrite Hfresh in Hs. by destruct Hs.
    + by rewrite lookup_insert_ne.
  - intros x r T. simpl. intros Hx HT.
    destruct (decide (x = (_next_entity_id m + 1)%Z)) as [->|Hne].
    + rewrite lookup_insert_eq in Hx. injection Hx as <-.
      rewrite lookup_empty in HT. by destruct HT.
    + rewrite lookup_insert_ne in Hx by done. by apply (Hc x r T).
  - intros T s HT. by apply (Hn T s).
Qed.

(** Whatever the state, [new_entity] keeps the table-to-index half of the
    consistency and the absence of empty index sets: the half it can break
    is [index_sound]. *)
Lemma new_entity_index_complete cs m :
  index_complete m ∧ no_empty_index m →
  index_complete (final (new_entity type_of cs m)) ∧
  no_empty_index (final (new_entity type_of cs m)).
Proof.
  intros [Hc Hn].
  destruct (new_entity_spec (λ m0, index_complete m0 ∧ no_empty_index m0) cs m)
    as (m' & -> & ? & _); [| |done].
  { intros c e m0 [? ?].
    eauto using add_component_index_complete, add_component_no_empty_index. }
  split.
  - intros x r T. simpl. intros Hx HT.
    destruct (decide (x = (_next_entity_id m + 1)%Z)) as [->|Hne].
    + rewrite lookup_insert_eq in Hx. injection Hx as <-.
      rewrite lookup_empty in HT. by destruct HT.
    + rewrite lookup_insert_ne in Hx by done. by apply (Hc x r T).
  - intros T s HT. by apply (Hn T s).
Qed.

Lemma new_entity_returns cs m :
  ∃ m', new_entity type_of cs m = Return (_next_entity_id m + 1)%Z m' ∧
        _next_entity_id m' = (_next_entity_id m + 1)%Z.
Proof.
  destruct (new_entity_spec (λ _, True) cs m) as (m' & ? & _ & ? & _);
    eauto.
Qed.

(** ** The id counter *)

Lemma run_ids_above commands : ∀ m,
  Forall (λ i, _next_entity_id m < i)%Z (run type_of commands m).1 ∧
  StronglySorted Z.lt (run type_of commands m).1 ∧
  (_next_entity_id m ≤ _next_entity_id (run type_of commands m).2)%Z.
Proof.
  induction commands as [|[cs|e] rest IH]; intros m; simpl.
  - split_and!; [constructor|constructor|lia].
  - destruct (new_entity_returns cs m) as (m' & -> & Hid). simpl.
    destruct (IH m') as (Hall & Hsorted & Hle). rewrite Hid in Hall, Hle.
    split_and!.
    + constructor; [lia|]. eapply Forall_impl; [done|]. simpl. lia.
    + by constructor.
    + lia.
  - destruct (IH (final (remove_entity e true m))) as (Hall & Hsorted & Hle).
    rewrite remove_entity_next_entity_id in Hall, Hle. done.
Qed.

Lemma StronglySorted_lt_NoDup (l : list Z) : StronglySorted Z.lt l → NoDup l.
Proof.
  induction 1 as [|x l _ IH Hall]; constructor; [|done].
  intros Hin. rewrite Forall_forall in Hall. specialize (Hall x Hin). lia.
Qed.

(** C8: over any sequence of [new_entity] and
    [remove_entity(e, immediate=True)] calls, from any state, the ids that
    [new_entity] returns are strictly increasing, all above the counter the
    sequence started from, and pairwise distinct; after [clear_database] the
    counter restarts and [new_entity] returns 1 again. *)
Theorem new_entity_ids_strictly_increasing commands m :
  StronglySorted Z.lt (run type_of commands m).1 ∧
  NoDup (run type_of commands m).1 ∧
  Forall (λ i, _next_entity_id m < i)%Z (run type_of commands m).1 ∧
  ∀ cs, result (new_entity type_of cs (final (clear_database m))) = inl 1%Z.
Proof.
  destruct (run_ids_above commands m) as (Hall & Hsorted & _).
  split_and!; [done|by apply StronglySorted_lt_NoDup|done|].
  intros cs. destruct (new_entity_returns cs (final (clear_database m)))
    as (m' & -> & _). done.
Qed.

(** ** Queries and reconciliation, for any iteration order *)

(** Iteration order of a Python set. *)
Context (set_iter : gset Z → list Z).



(** C5: when a requested type has no index set, [get_components] yields
    nothing and ends without an exception. *)
Theorem get_components_missing_index Ts m :
  Ts ≠ [] →
  (∃ T, T ∈ Ts ∧ _components m !! T = None) →
  get_components set_iter Ts m = ([], None).
Proof.
  intros _ (T & HT & Hnone). unfold get_components.
  rewrite (mapM_None_2 (λ T, _components m !! T) Ts); [done|].
  apply Exists_exists. eauto.
Qed.

Lemma reconcile_frame m :
  let m' := final (reconcile set_iter m) in
  _systems m' = _systems m ∧
  _next_entity_id m' = _next_entity_id m ∧
  sys_Manager m' = sys_Manager m ∧
  (raised (reconcile set_iter m) → _dead_entities m' = _dead_entities m).
Proof.
  unfold reconcile. monad_unfold.
  destruct (decide (_dead_entities m = ∅)); [done|].
  pose proof (purge_loop_frame (set_iter (_dead_entities m)) m) as Hf.
  simpl in Hf.
  destruct (for_each _ _ m) as [[] m1|ex m1]; simpl in Hf |- *;
    destruct Hf as (? & ? & ? & ?); done.
Qed.

(** ** The dispatch loop *)

Context {Args : Type}.
Context (system_process :
  SysRef → Args → @Manager CType _ _ Component SysRef _ _ →
  @outcome CType _ _ Component SysRef _ _ unit).


Lemma dispatch_preserves (P : Manager → Prop) args :
  (∀ s a m, P m → P (final (system_process s a m))) →
  ∀ fuel i m calls o,
    P m →
    dispatch system_process fuel i args m = Some (calls, o) →
    P (final o) ∧ Forall (λ c, P (call_state c)) calls.
Proof.
  intros HP. induction fuel as [|fuel IH]; intros i m calls o Hm; [done|].
  simpl. destruct (_systems m !! i) as [s|].
  - specialize (HP s args m Hm).
    destruct (system_process s args m) as [[] m1|ex m1]; simpl in HP |- *.
    + destruct (dispatch system_process fuel (S i) args m1)
        as [[calls' o']|] eqn:Hd; [|done].
      simpl. intros [= <- <-].
      destruct (IH _ _ _ _ HP Hd). split; [done|]. by constructor.
    + intros [= <- <-]. split; [done|]. by repeat constructor.
  - intros [= <- <-]. by split.
Qed.

(** ** Facts that depend on the enumeration of sets *)

(** The only assumption on the iteration order of a set: it enumerates the
    set. *)
Hypothesis set_iter_perm : ∀ s, set_iter s ≡ₚ elements s.

Lemma set_iter_elem_of (s : gset Z) e : e ∈ set_iter s ↔ e ∈ s.
Proof. by rewrite set_iter_perm, elem_of_elements. Qed.

Lemma set_iter_NoDup (s : gset Z) : NoDup (set_iter s).
Proof. rewrite set_iter_perm. apply NoDup_elements. Qed.






Lemma reconcile_returns m :
  index_complete m →
  (∀ e, e ∈ _dead_entities m → is_Some (_entities m !! e)) →
  ∃ m',
    reconcile set_iter m = Return tt m' ∧
    _dead_entities m' = ∅ ∧
    _systems m' = _systems m ∧
    _next_entity_id m' = _next_entity_id m ∧
    sys_Manager m' = sys_Manager m ∧
    index_complete m' ∧
    (no_empty_index m → no_empty_index m') ∧
    (index_sound m → index_sound m') ∧
    (∀ x, gone x m → gone x m') ∧
    (index_sound m → ∀ e, e ∈ _dead_entities m → gone e m') ∧
    (∀ e, e ∈ _dead_entities m → _entities m' !! e = None) ∧
    (∀ x, x ∉ _dead_entities m → _entities m' !! x = _entities m !! x).
Proof.
  intros Hc Hlive. unfold reconcile. monad_unfold.
  destruct (decide (_dead_entities m = ∅)) as [Hd|Hd].
  - exists m. rewrite Hd. split_and!; first [done|intros; set_solver].
  - destruct (purge_loop (set_iter (_dead_entities m)) m)
      as (m' & Hloop & ? & ? & ? & ? & Hge & Hr & Ho);
      [apply set_iter_NoDup|done|..].
    { intros e He. apply Hlive. by apply set_iter_elem_of. }
    pose proof (purge_loop_frame (set_iter (_dead_entities m)) m) as Hf.
    simpl in Hf. rewrite Hloop in Hf |- *. simpl in Hf |- *.
    destruct Hf as (? & ? & ? & ?).
    eexists. split; [done|]. simpl. split_and!; try done.
    + intros Hs e He. destruct (Hge Hs e) as [? ?];
        [by apply set_iter_elem_of|]. by split.
    + intros e He. apply Hr. by apply set_iter_elem_of.
    + intros x Hx. apply Ho. by rewrite set_iter_elem_of.
Qed.

Lemma reconcile_raises m :
  (∃ e, e ∈ _dead_entities m ∧ _entities m !! e = None) →
  raised (reconcile set_iter m) ∧
  _dead_entities (final (reconcile set_iter m)) = _dead_entities m.
Proof.
  intros (e & He & Hnone).
  assert (raised (reconcile set_iter m)) as Hr.
  { unfold reconcile. monad_unfold.
    rewrite decide_False by set_solver.
    pose proof (purge_loop_raises (set_iter (_dead_entities m)) m) as Hl.
    destruct (for_each _ _ m); [|done]. apply Hl.
    exists e. by rewrite set_iter_elem_of. }
  split; [done|]. by apply reconcile_frame.
Qed.

End EcsFacts.

(** * The concrete application: instances of the theorems *)

Section DemoFacts.

Import Demo.

Lemma ascending_enumerates (s : gset Z) : ascending s ≡ₚ elements s.
Proof. apply merge_sort_Permutation. Qed.

Lemma fresh_consistent : consistent fresh.
Proof. apply init_consistent. Qed.

Lemma early_attach_consistent : consistent early_attach.
Proof.
  exact (add_component_consistent class_of (Comp Position 7) 1 fresh
           fresh_consistent).
Qed.

Lemma two_entities_consistent : consistent two_entities.
Proof.
  unfold two_entities.
  apply new_entity_consistent; [|by vm_compute].
  apply new_entity_consistent; [|by vm_compute].
  apply fresh_consistent.
Qed.

Lemma both_pending_consistent : consistent both_pending.
Proof. by apply (consistent_ext two_entities), two_entities_consistent. Qed.

Lemma busy_consistent : consistent busy.
Proof. by apply (consistent_ext two_entities), two_entities_consistent. Qed.

Lemma both_pending_live x :
  x ∈ _dead_entities both_pending → is_Some (_entities both_pending !! x).
Proof.
  assert (_dead_entities both_pending = {[2; 1]}%Z) as -> by done.
  rewrite elem_of_union, !elem_of_singleton.
  intros [->| ->]; vm_compute; eauto.
Qed.

Lemma busy_live x :
  x ∈ _dead_entities busy → is_Some (_entities busy !! x).
Proof. apply both_pending_live. Qed.

(** C1, at the failing inputs: entity 1 was created with one component,
    which was then removed; and the id 1 on a fresh Manager, where no id has
    been issued. *)
Lemma has_component_raises_without_row_witness :
  (_entities stripped !! 1%Z = None ∧
   has_component 1 Position stripped = Raise KeyError stripped) ∧
  (_entities fresh !! 1%Z = None ∧
   has_component 1 Position fresh = Raise KeyError fresh).
Proof.
  split; (split; [by vm_compute|]);
    apply has_component_raises_without_row; by vm_compute.
Defined.


(** C3 (a defect of the code): [new_entity] issues the id 1 and resets the
    row that [add_component_to_entity] created for it, but leaves 1 in the
    index set of [Position]: a consistent state becomes inconsistent. *)
Theorem new_entity_breaks_consistency :
  consistent early_attach ∧
  ∃ m',
    new_entity class_of [] early_attach = Return 1%Z m' ∧
    elements <$> _components m' !! Position = Some [1%Z] ∧
    _entities m' !! 1%Z = Some ∅ ∧
    ¬ index_sound m' ∧
    ¬ consistent m'.
Proof.
  split; [apply early_attach_consistent|].
  eexists. split; [by vm_compute|].
  assert (∀ m' : manager,
            _components m' !! Position = Some {[1%Z]} →
            _entities m' !! 1%Z = Some ∅ → ¬ index_sound m') as Hbad.
  { intros m' Hc He Hs. destruct (Hs Position {[1%Z]} 1%Z Hc) as [c Hcomp].
    - set_solver.
    - unfold component_of in Hcomp. rewrite He in Hcomp. simpl in Hcomp.
      by rewrite lookup_empty in Hcomp. }
  split_and!; [by vm_compute|by vm_compute| |].
  - apply Hbad; by vm_compute.
  - intros (Hs & _). revert Hs. apply Hbad; by vm_compute.
Qed.



(** C5: no entity holds a [Health]. *)
Lemma get_components_missing_index_witness :
  get_components ascending [Position; Health] two_entities = ([], None).
Proof.
  apply get_components_missing_index; [done|].
  exists Health. split; [set_solver|by vm_compute].
Defined.



End DemoFacts.

(** * Further properties of the methods *)

Section EcsMore.

Context {CType : Type} `{Countable CType}.
Context {Component : Type}.
Context {SysRef : Type} `{Countable SysRef}.
Context {SType : Type} `{EqDecision SType} (sys_type : SysRef → SType).

Implicit Types m : @Manager CType _ _ Component SysRef _ _.
Implicit Types entity e x : Z.
Implicit Types T : CType.
Implicit Types st : SType.

#[local] Arguments remove_entity : simpl never.
#[local] Arguments add_component_to_entity : simpl never.
#[local] Arguments discard_from_index : simpl never.
#[local] Arguments remove_component_from_entity : simpl never.
#[local] Arguments new_entity : simpl never.
#[local] Arguments reconcile : simpl never.

Ltac monad_unfold :=
  unfold bind, get, modify, ret, raise, getitem; simpl.

(** ** Lookups *)

Lemma get_component_from_entity_eq T e m :
  get_component_from_entity T e m =
  match component_of m e T with
  | Some c => Return c m
  | None => Raise KeyError m
  end.
Proof.
  unfold get_component_from_entity, component_of. monad_unfold.
  destruct (_entities m !! e) as [row|]; simpl; [|done].
  by destruct (row !! T).
Qed.

(** X1: [has_component] answers [True] exactly when
    [get_component_from_entity] returns an instance, and it raises exactly
    when the entity has no table row, whatever the state. *)
Theorem has_component_agrees_with_get e T m :
  (has_component e T m = Return true m ↔
   ∃ c, get_component_from_entity T e m = Return c m) ∧
  (has_component e T m = Return false m ↔
   is_Some (_entities m !! e) ∧
   get_component_from_entity T e m = Raise KeyError m) ∧
  (has_component e T m = Raise KeyError m ↔ _entities m !! e = None).
Proof.
  rewrite get_component_from_entity_eq. unfold component_of.
  destruct (_entities m !! e) as [row|] eqn:Hrow; simpl.
  - rewrite (has_component_with_row e T row m Hrow).
    destruct (row !! T) as [c|] eqn:HT.
    + rewrite bool_decide_eq_true_2 by eauto.
      split_and!; [naive_solver eauto| |naive_solver].
      split; [done|]. by intros [_ ?].
    + rewrite bool_decide_eq_false_2 by (by intros [? ?]).
      split_and!; [naive_solver|naive_solver eauto|naive_solver].
  - rewrite has_component_without_row by done.
    split_and!; [naive_solver| |naive_solver].
    split; [done|]. by intros [[? ?] _].
Qed.

(** ** Detaching and attaching components *)

Lemma remove_component_returns T e s c m :
  _components m !! T = Some s →
  component_of m e T = Some c →
  ∃ m' row,
    remove_component_from_entity T e m = Return tt m' ∧
    _entities m !! e = Some row ∧
    (∀ T', _components m' !! T' =
           if decide (T' = T) then purge e s else _components m !! T') ∧
    (∀ x, _entities m' !! x =
          if decide (x = e)
          then (if decide (delete T row = ∅) then None
                else Some (delete T row))
          else _entities m !! x) ∧
    _systems m' = _systems m ∧
    _next_entity_id m' = _next_entity_id m ∧
    _dead_entities m' = _dead_entities m ∧
    sys_Manager m' = sys_Manager m.
Proof.
  intros Hs Hc. unfold component_of in Hc.
  destruct (_entities m !! e) as [row|] eqn:Hrow; simpl in Hc; [|done].
  rewrite remove_component_from_entity_eq, Hs. simpl. rewrite Hrow, Hc.
  eexists _, row. split; [done|]. split; [done|]. simpl. split_and!; try done.
  - intros T'. destruct (purge e s); destruct (decide (T' = T)) as [->|];
      by rewrite ?lookup_insert_eq, ?lookup_insert_ne,
                 ?lookup_delete_eq, ?lookup_delete_ne by done.
  - intros x. destruct (decide (delete T row = ∅));
      destruct (decide (x = e)) as [->|];
      by rewrite ?lookup_insert_eq, ?lookup_insert_ne,
                 ?lookup_delete_eq, ?lookup_delete_ne by done.
Qed.

(** X2: when the type has an index set and the entity holds a component of
    the type, [remove_component_from_entity] returns; afterwards the entity
    has no component of the type and is out of the type's index set, so that
    [get_component_from_entity] raises [KeyError]; every other
    (entity, type) pair keeps its component and its index membership, and
    the systems, the id counter and the pending set are untouched. *)
Theorem remove_component_detaches T e s c m :
  _components m !! T = Some s →
  component_of m e T = Some c →
  ∃ m',
    remove_component_from_entity T e m = Return tt m' ∧
    component_of m' e T = None ∧
    ¬ indexed m' T e ∧
    get_component_from_entity T e m' = Raise KeyError m' ∧
    (∀ x T', (x, T') ≠ (e, T) →
             component_of m' x T' = component_of m x T') ∧
    (∀ x T', (x, T') ≠ (e, T) → indexed m' T' x ↔ indexed m T' x) ∧
    _systems m' = _systems m ∧
    _next_entity_id m' = _next_entity_id m ∧
    _dead_entities m' = _dead_entities m.
Proof.
  intros Hs Hc.
  destruct (remove_component_returns T e s c m Hs Hc)
    as (m' & row & Hrun & Hrow & Hcl & Hel & ? & ? & ? & _).
  assert (component_of m' e T = None) as Hnone.
  { unfold component_of. rewrite Hel, decide_True by done.
    destruct (decide (delete T row = ∅)); [done|]. simpl.
    apply lookup_delete_eq. }
  exists m'. split_and!; try done.
  - intros (s' & Hs' & Hin). rewrite Hcl, decide_True in Hs' by done.
    apply purge_Some in Hs' as [-> _]. set_solver.
  - by rewrite get_component_from_entity_eq, Hnone.
  - intros x T' Hne. unfold component_of. rewrite Hel.
    destruct (decide (x = e)) as [->|Hxe]; [|done].
    assert (T' ≠ T) as HT by congruence.
    rewrite Hrow. simpl.
    destruct (decide (delete T row = ∅)) as [Hemp|Hemp]; simpl.
    + rewrite <- (lookup_delete_ne row T T') by done.
      by rewrite Hemp, lookup_empty.
    + by apply lookup_delete_ne.
  - intros x T' Hne. unfold indexed. rewrite Hcl.
    destruct (decide (T' = T)) as [->|HT]; [|done].
    assert (x ≠ e) as Hxe by congruence.
    rewrite Hs. split.
    + intros (s' & Hs' & Hin). apply purge_Some in Hs' as [-> _].
      exists s. split; [done|]. set_solver.
    + intros (s' & [= <-] & Hin). exists (s ∖ {[e]}).
      split; [|set_solver]. apply purge_Some. set_solver.
Qed.

(** ** Immediate destruction *)

(** X3: in a consistent state, [remove_entity(e, immediate=True)] of an
    entity that has a table row returns; afterwards the entity has no row
    and is in no index set, the state is still consistent, every other
    entity keeps its components and its index memberships, and the systems,
    the id counter and the pending set are untouched (an entity that was
    pending stays pending). *)
Theorem remove_entity_immediate_destroys e row m :
  consistent m →
  _entities m !! e = Some row →
  ∃ m',
    remove_entity e true m = Return tt m' ∧
    gone e m' ∧
    consistent m' ∧
    (∀ x T, x ≠ e → component_of m' x T = component_of m x T) ∧
    (∀ x T, x ≠ e → indexed m' T x ↔ indexed m T x) ∧
    _systems m' = _systems m ∧
    _next_entity_id m' = _next_entity_id m ∧
    _dead_entities m' = _dead_entities m.
Proof.
  intros Hcons Hrow.
  destruct (remove_entity_immediate e row m Hrow) as (m' & Hrun & Hrem);
    [apply Hcons|].
  exists m'. split; [done|].
  split; [eapply removed_gone; [done..|apply Hcons]|].
  split; [by eapply removed_consistent|].
  destruct Hrem as (He & Hc & ? & ? & ? & _). split_and!; try done.
  - intros x T Hne. unfold component_of. rewrite He.
    by rewrite lookup_delete_ne.
  - intros x T Hne. unfold indexed. rewrite Hc.
    destruct (decide (is_Some (row !! T))); [|done].
    destruct (_components m !! T) as [s|]; simpl; [|naive_solver].
    split.
    + intros (s' & Hs' & Hin). apply purge_Some in Hs' as [-> _].
      exists s. split; [done|]. set_solver.
    + intros (s' & [= <-] & Hin). exists (s ∖ {[e]}).
      split; [|set_solver]. apply purge_Some. set_solver.
Qed.

(** The entity table after [remove_entity], whatever the outcome, is part
    of the table before. *)
Lemma remove_entity_entities_subseteq e b m :
  _entities (final (remove_entity e b m)) ⊆ _entities m.
Proof.
  destruct b; [|done].
  destruct (remove_entity e true m) as [[] m'|ex m'] eqn:Hrun; simpl.
  - rewrite (remove_entity_return_entities e m m' Hrun).
    apply delete_subseteq.
  - unfold remove_entity, del_entity in Hrun. revert Hrun. monad_unfold.
    destruct (_entities m !! e) as [row|] eqn:Hrow; simpl;
      [|by intros [= _ <-]].
    pose proof (discard_loop_frame e (row_keys row) m) as Hf. simpl in Hf.
    destruct (for_each _ _ m) as [[] m1|ex1 m1]; simpl in Hf |- *.
    + destruct Hf as (_ & Hent & _). by rewrite Hent, Hrow.
    + intros [= _ <-]. destruct Hf as (_ & -> & _). done.
Qed.

Lemma purge_loop_entities_subseteq es : ∀ m,
  _entities (final (for_each es (λ e, remove_entity e true) m)) ⊆ _entities m.
Proof.
  induction es as [|e es IH]; intros m; simpl; [done|].
  unfold bind.
  pose proof (remove_entity_entities_subseteq e true m) as Hsub.
  destruct (remove_entity e true m) as [[] m1|ex m1]; simpl in Hsub |- *;
    [|done].
  etrans; [apply IH|done].
Qed.

Context (type_of : Component → CType).

Lemma add_component_frame c e m :
  ∃ m',
    add_component_to_entity type_of c e m = Return tt m' ∧
    component_of m' e (type_of c) = Some c ∧
    indexed m' (type_of c) e ∧
    (∀ x T, (x, T) ≠ (e, type_of c) →
            component_of m' x T = component_of m x T) ∧
    (∀ x T, (x, T) ≠ (e, type_of c) → indexed m' T x ↔ indexed m T x) ∧
    _systems m' = _systems m ∧
    _next_entity_id m' = _next_entity_id m ∧
    _dead_entities m' = _dead_entities m.
Proof.
  eexists. split; [apply add_component_to_entity_eq|].
  split_and!; try done.
  - unfold component_of. simpl. rewrite lookup_insert_eq. simpl.
    apply lookup_insert_eq.
  - eexists. simpl. rewrite lookup_insert_eq. split; [done|]. set_solver.
  - intros x T Hne. unfold component_of. simpl.
    destruct (decide (x = e)) as [->|Hxe].
    + assert (T ≠ type_of c) as HT by congruence.
      rewrite lookup_insert_eq. simpl. rewrite lookup_insert_ne by done.
      destruct (_entities m !! e); simpl; [done|]. apply lookup_empty.
    + by rewrite lookup_insert_ne.
  - intros x T Hne. unfold indexed. simpl.
    destruct (decide (T = type_of c)) as [->|HT].
    + assert (x ≠ e) as Hxe by congruence.
      rewrite lookup_insert_eq. split.
      * intros (s & [= <-] & Hin).
        destruct (_components m !! type_of c) as [s|]; simpl in Hin.
        -- exists s. split; [done|]. set_solver.
        -- set_solver.
      * intros (s & Hs & Hin). rewrite Hs. simpl.
        eexists. split; [done|]. set_solver.
    + by rewrite lookup_insert_ne.
Qed.

(** X4: [add_component_to_entity] returns for every entity id; afterwards
    the entity holds the instance under the instance's class and is in the
    class's index set; every other (entity, type) pair keeps its component
    and its index membership, and the systems, the id counter and the
    pending set are untouched. *)
Theorem add_component_attaches c e m :
  ∃ m',
    add_component_to_entity type_of c e m = Return tt m' ∧
    component_of m' e (type_of c) = Some c ∧
    indexed m' (type_of c) e ∧
    (∀ x T, (x, T) ≠ (e, type_of c) →
            component_of m' x T = component_of m x T) ∧
    (∀ x T, (x, T) ≠ (e, type_of c) → indexed m' T x ↔ indexed m T x) ∧
    _systems m' = _systems m ∧
    _next_entity_id m' = _next_entity_id m ∧
    _dead_entities m' = _dead_entities m.
Proof. apply add_component_frame. Qed.

(** X5: attaching a second instance of a class overwrites the first one
    entirely: the state is the one that attaching the second instance alone
    would have produced. *)
Theorem add_component_replaces c1 c2 e m :
  type_of c1 = type_of c2 →
  add_component_to_entity type_of c2 e
    (final (add_component_to_entity type_of c1 e m)) =
  add_component_to_entity type_of c2 e m.
Proof.
  intros Heq. rewrite !add_component_to_entity_eq. simpl.
  rewrite Heq, !lookup_insert_eq. simpl.
  unfold set_entities, set_components. simpl.
  rewrite !insert_insert_eq. do 3 f_equal.
  rewrite assoc_L by apply _. by rewrite union_idemp_L.
Qed.

(** X6: in a consistent state, attaching a component of a class the entity
    does not hold and removing that class again gives the state back,
    unless the entity had an empty row: then the row is deleted with the
    entity's last component. *)
Theorem add_then_remove_component c e m :
  consistent m →
  component_of m e (type_of c) = None →
  remove_component_from_entity (type_of c) e
    (final (add_component_to_entity type_of c e m)) =
  Return tt
    (match _entities m !! e with
     | Some row =>
         if decide (row = ∅) then set_entities (delete e (_entities m)) m
         else m
     | None => m
     end).
Proof.
  intros (Hs & _ & Hn) Hnone.
  rewrite add_component_to_entity_eq. simpl.
  rewrite remove_component_from_entity_eq. simpl.
  rewrite !lookup_insert_eq. simpl. rewrite ?lookup_insert_eq.
  set (s0 := default ∅ (_components m !! type_of c)).
  set (row0 := default ∅ (_entities m !! e)).
  assert (e ∉ s0) as Hin.
  { subst s0. destruct (_components m !! type_of c) as [s|] eqn:Hc; simpl;
      [|set_solver].
    intros Hin. destruct (Hs _ _ _ Hc Hin) as [c' Hc']. congruence. }
  assert (row0 !! type_of c = None) as Hrow0.
  { subst row0. unfold component_of in Hnone.
    destruct (_entities m !! e); simpl in *; [done|apply lookup_empty]. }
  assert (match purge e ({[e]} ∪ s0) with
          | Some s' =>
              <[type_of c := s']> (<[type_of c := {[e]} ∪ s0]> (_components m))
          | None =>
              delete (type_of c)
                (<[type_of c := {[e]} ∪ s0]> (_components m))
          end = _components m) as ->.
  { unfold purge.
    assert (({[e]} ∪ s0) ∖ {[e]} = s0) as -> by set_solver.
    subst s0. destruct (_components m !! type_of c) as [s|] eqn:Hc; simpl.
    - rewrite decide_False by (by apply (Hn (type_of c))).
      rewrite insert_insert_eq. by apply insert_id.
    - rewrite decide_True by done. rewrite delete_insert_eq.
      by apply delete_id. }
  rewrite delete_insert_id by done.
  unfold set_entities, set_components. simpl. f_equal.
  subst row0. destruct (_entities m !! e) as [row|] eqn:He; simpl.
  - destruct (decide (row = ∅)) as [->|Hne].
    + by rewrite delete_insert_eq.
    + rewrite insert_insert_eq, insert_id by done. by destruct m.
  - rewrite decide_True by done.
    rewrite delete_insert_eq, delete_id by done. by destruct m.
Qed.

End EcsMore.

(** * Further properties of the system registry *)

Section SystemsMore.

Context {CType : Type} `{Countable CType}.
Context {Component : Type}.
Context {SysRef : Type} `{Countable SysRef}.
Context {SType : Type} `{EqDecision SType} (sys_type : SysRef → SType).

Implicit Types m : @Manager CType _ _ Component SysRef _ _.
Implicit Types st : SType.
Implicit Types s : SysRef.

Lemma remove_system_loop_past_end st fuel i m :
  length (_systems m) ≤ i →
  remove_system_loop sys_type (S fuel) i st m = Some (Return tt m).
Proof.
  intros Hlen. simpl. by rewrite lookup_ge_None_2.
Qed.

(** The loop walks over the systems of other types and, at the first match,
    drops it and goes on one position further. *)
Lemma remove_system_loop_reaches_match st l1 s l2 : ∀ fuel i m,
  i ≤ length l1 →
  _systems m = l1 ++ s :: l2 →
  Forall (λ x, sys_type x ≠ st) l1 →
  sys_type s = st →
  remove_system_loop sys_type (S (length l1 - i) + fuel) i st m =
  remove_system_loop sys_type fuel (S (length l1)) st
    (set_systems (l1 ++ l2)
       (set_sys_Manager (<[s := RefNone]> (sys_Manager m)) m)).
Proof.
  intros fuel i m Hi Hm Hl1 Hst.
  assert (s ∉ l1) as Hs.
  { intros Hin. rewrite Forall_forall in Hl1. by apply (Hl1 s Hin). }
  remember (length l1 - i) as d eqn:Hd.
  revert i Hi Hd. induction d as [|d IH]; intros i Hi Hd.
  - assert (i = length l1) as -> by lia. simpl.
    rewrite Hm, list_lookup_middle by done.
    rewrite decide_True by done.
    rewrite list_remove_app_r by done. simpl.
    by rewrite decide_True.
  - assert (i < length l1) as Hlt by lia.
    destruct (lookup_lt_is_Some_2 l1 i Hlt) as [x Hx].
    change (S (S d) + fuel) with (S (S d + fuel)).
    cbn [remove_system_loop].
    rewrite Hm, lookup_app_l, Hx by done.
    rewrite decide_False.
    2:{ rewrite Forall_forall in Hl1. apply Hl1.
        by eapply list_elem_of_lookup_2. }
    apply IH; lia.
Qed.

Lemma remove_system_loop_no_match st : ∀ fuel i m,
  Forall (λ x, sys_type x ≠ st) (_systems m) →
  length (_systems m) - i < fuel →
  remove_system_loop sys_type fuel i st m = Some (Return tt m).
Proof.
  induction fuel as [|fuel IH]; intros i m Hall Hlen; [lia|].
  simpl. destruct (_systems m !! i) as [x|] eqn:Hx; [|done].
  apply lookup_lt_Some in Hx as Hi.
  rewrite decide_False.
  2:{ rewrite Forall_forall in Hall. apply Hall.
      by eapply list_elem_of_lookup_2. }
  apply IH; [done|lia].
Qed.

Lemma remove_system_one_match st l1 s l2 m :
  _systems m = l1 ++ s :: l2 →
  sys_type s = st →
  Forall (λ x, sys_type x ≠ st) l1 →
  Forall (λ x, sys_type x ≠ st) l2 →
  remove_system sys_type st m =
  Some (Return tt
          (set_systems (l1 ++ l2)
             (set_sys_Manager (<[s := RefNone]> (sys_Manager m)) m))).
Proof.
  intros Hm Hst Hl1 Hl2. unfold remove_system.
  pose proof (remove_system_loop_reaches_match st l1 s l2
                (S (length l2)) 0 m) as Heq.
  replace (S (length l1 - 0) + S (length l2))
    with (S (length (_systems m))) in Heq
    by (rewrite Hm, length_app; simpl; lia).
  rewrite Heq by (done || lia).
  apply remove_system_loop_no_match; simpl.
  - by apply Forall_app.
  - rewrite length_app. lia.
Qed.

(** X7: when exactly one registered system has the type, [remove_system]
    removes that system, clears its back-reference and changes nothing
    else. *)
Theorem remove_system_single_match st l1 s l2 m :
  _systems m = l1 ++ s :: l2 →
  sys_type s = st →
  Forall (λ x, sys_type x ≠ st) l1 →
  Forall (λ x, sys_type x ≠ st) l2 →
  remove_system sys_type st m =
  Some (Return tt
          (set_systems (l1 ++ l2)
             (set_sys_Manager (<[s := RefNone]> (sys_Manager m)) m))).
Proof. apply remove_system_one_match. Qed.

Lemma remove_system_loop_closed_form st : ∀ fuel p r m,
  _systems m = p ++ r →
  NoDup (p ++ r) →
  length r < fuel →
  ∃ m',
    remove_system_loop sys_type fuel (length p) st m = Some (Return tt m') ∧
    _systems m' = p ++ skipping_removal sys_type st r.
Proof.
  induction fuel as [|fuel IH]; intros p r m Hm Hnd Hlen; [lia|].
  destruct r as [|x r].
  - exists m. split; [|by rewrite Hm].
    apply remove_system_loop_past_end. rewrite Hm, length_app. simpl. lia.
  - simpl in Hlen. cbn [remove_system_loop skipping_removal].
    rewrite Hm, list_lookup_middle by done.
    assert (x ∉ p) as Hxp.
    { apply NoDup_app in Hnd as (_ & Hdis & _). intros Hin.
      apply (Hdis x Hin). by left. }
    destruct (decide (sys_type x = st)) as [Hst|Hst].
    + simpl. rewrite Hm, list_remove_app_r by done. simpl.
      rewrite decide_True by done. simpl.
      assert (NoDup (p ++ r)) as Hnd'.
      { apply NoDup_app in Hnd as (? & Hdis & Hr).
        apply NoDup_cons in Hr as [_ Hr]. apply NoDup_app.
        split_and!; [done| |done].
        intros y Hy Hyr. apply (Hdis y Hy). by right. }
      destruct r as [|y r].
      * destruct fuel as [|fuel]; [simpl in Hlen; lia|].
        eexists. split.
        { apply remove_system_loop_past_end. simpl.
          rewrite length_app. simpl. lia. }
        done.
      * destruct (IH (p ++ [y]) r
                    (set_systems (p ++ y :: r)
                       (set_sys_Manager (<[x := RefNone]> (sys_Manager m)) m)))
          as (m' & Hrun & Hsys).
        { simpl. by rewrite <- app_assoc. }
        { by rewrite <- app_assoc. }
        { simpl in Hlen. lia. }
        exists m'. rewrite length_app in Hrun. simpl in Hrun.
        replace (length p + 1) with (S (length p)) in Hrun by lia.
        split; [done|]. by rewrite Hsys, <- app_assoc.
    + destruct (IH (p ++ [x]) r m) as (m' & Hrun & Hsys).
      { by rewrite Hm, <- app_assoc. }
      { by rewrite <- app_assoc. }
      { lia. }
      exists m'. rewrite length_app in Hrun. simpl in Hrun.
      replace (length p + 1) with (S (length p)) in Hrun by lia.
      split; [done|]. by rewrite Hsys, <- app_assoc.
Qed.

(** X8: on a registry without repeated instance, [remove_system] returns and
    leaves the systems that [skipping_removal] keeps: it drops a match and
    passes over the system registered right after it, so that of two systems
    of the type registered one after the other only the first is removed,
    while two matches separated by another system are both removed. *)
Theorem remove_system_skips_after_match st m :
  NoDup (_systems m) →
  ∃ m',
    remove_system sys_type st m = Some (Return tt m') ∧
    _systems m' = skipping_removal sys_type st (_systems m).
Proof.
  intros Hnd.
  destruct (remove_system_loop_closed_form st (S (length (_systems m)))
              [] (_systems m) m) as (m' & Hrun & Hsys); [done|done|lia|].
  by exists m'.
Qed.

Context (is_SystemTemplate : SType → bool).

(** X9: registering an instance of a class accepted by the assertion, when
    no registered system has its type, and removing its type again gives the
    registry back; the instance's back-reference ends as [None]. *)
Theorem add_then_remove_system s m :
  is_SystemTemplate (sys_type s) = true →
  Forall (λ x, sys_type x ≠ sys_type s) (_systems m) →
  remove_system sys_type (sys_type s)
    (final (add_system sys_type is_SystemTemplate s m)) =
  Some (Return tt (set_sys_Manager (<[s := RefNone]> (sys_Manager m)) m)).
Proof.
  intros Hok Hall.
  assert (add_system sys_type is_SystemTemplate s m =
          Return tt
            (set_systems (_systems m ++ [s])
               (set_sys_Manager (<[s := RefSelf]> (sys_Manager m)) m)))
    as ->.
  { unfold add_system, bind, ret, modify. by rewrite Hok. }
  simpl.
  rewrite (remove_system_one_match (sys_type s) (_systems m) s [])
    by (done || constructor).
  simpl. unfold set_systems, set_sys_Manager. simpl.
  rewrite insert_insert_eq, app_nil_r. by destruct m.
Qed.

(** X10: registering the same instance twice and removing its type once,
    when no other registered system has the type, leaves the instance
    registered once, with its back-reference cleared. *)
Theorem add_twice_then_remove_system s m :
  is_SystemTemplate (sys_type s) = true →
  Forall (λ x, sys_type x ≠ sys_type s) (_systems m) →
  ∃ m',
    remove_system sys_type (sys_type s)
      (final (add_system sys_type is_SystemTemplate s
         (final (add_system sys_type is_SystemTemplate s m)))) =
      Some (Return tt m') ∧
    _systems m' = _systems m ++ [s] ∧
    sys_Manager m' !! s = Some RefNone.
Proof.
  intros Hok Hall.
  assert (∀ m0, add_system sys_type is_SystemTemplate s m0 =
          Return tt
            (set_systems (_systems m0 ++ [s])
               (set_sys_Manager (<[s := RefSelf]> (sys_Manager m0)) m0)))
    as Hadd.
  { intros m0. unfold add_system, bind, ret, modify. by rewrite Hok. }
  set (m2 := set_systems ((_systems m ++ [s]) ++ [s])
               (set_sys_Manager
                  (<[s := RefSelf]> (<[s := RefSelf]> (sys_Manager m))) m)).
  assert (final (add_system sys_type is_SystemTemplate s
                   (final (add_system sys_type is_SystemTemplate s m))) = m2)
    as -> by (by rewrite !Hadd).
  unfold remove_system.
  pose proof (remove_system_loop_reaches_match (sys_type s) (_systems m) s [s]
                2 0 m2) as Heq.
  replace (S (length (_systems m) - 0) + 2)
    with (S (length (_systems m2))) in Heq
    by (subst m2; simpl; rewrite !length_app; simpl; lia).
  rewrite Heq; [|lia|subst m2; simpl; by rewrite <- app_assoc|done|done].
  eexists. split.
  { apply remove_system_loop_past_end. simpl. rewrite length_app. simpl. lia. }
  simpl. split; [done|]. apply lookup_insert_eq.
Qed.

End SystemsMore.

(** * Further properties of the tick *)

Section TickMore.

Context {CType : Type} `{Countable CType}.
Context {Component : Type}.
Context {SysRef : Type} `{Countable SysRef}.

Implicit Types m : @Manager CType _ _ Component SysRef _ _.
Implicit Types entity e x : Z.
Implicit Types T : CType.

#[local] Arguments remove_entity : simpl never.
#[local] Arguments discard_from_index : simpl never.
#[local] Arguments remove_component_from_entity : simpl never.
#[local] Arguments reconcile : simpl never.

(** ** How a pending entity loses its row *)

(** X11: three calls that return normally leave a pending entity without a
    table row: marking an id that has no row (the deferred [remove_entity]
    does not look the id up), destroying at once an entity that is pending,
    and removing the only component of a pending entity. *)
Theorem stale_pending_arises e m :
  (_entities m !! e = None →
   ∃ m', remove_entity e false m = Return tt m' ∧ stale_pending m') ∧
  (e ∈ _dead_entities m → index_complete m → is_Some (_entities m !! e) →
   ∃ m', remove_entity e true m = Return tt m' ∧ stale_pending m') ∧
  (∀ T c s,
     e ∈ _dead_entities m →
     _components m !! T = Some s →
     _entities m !! e = Some {[T := c]} →
     ∃ m', remove_component_from_entity T e m = Return tt m' ∧
           stale_pending m').
Proof.
  split_and!.
  - intros Hnone. eexists. split; [reflexivity|].
    exists e. simpl. split; [set_solver|done].
  - intros Hin Hc [row Hrow].
    destruct (remove_entity_immediate e row m Hrow Hc)
      as (m' & Hrun & He & _ & _ & _ & Hd & _).
    exists m'. split; [done|]. exists e. rewrite Hd, He.
    split; [done|apply lookup_delete_eq].
  - intros T c s Hin Hs Hrow.
    rewrite remove_component_from_entity_eq, Hs. simpl.
    rewrite Hrow, lookup_singleton_eq, delete_singleton_eq.
    rewrite decide_True by done.
    eexists. split; [done|]. exists e. simpl.
    split; [done|apply lookup_delete_eq].
Qed.

(** ** A tick with a pending entity that has no row *)

Lemma discard_from_index_raises_KeyError T e m ex m' :
  discard_from_index T e m = Raise ex m' → ex = KeyError.
Proof.
  rewrite discard_from_index_eq.
  destruct (_components m !! T); [done|]. by intros [= <- _].
Qed.

Lemma discard_loop_raises_KeyError e ks : ∀ m ex m',
  for_each ks (λ T, discard_from_index T e) m = Raise ex m' → ex = KeyError.
Proof.
  induction ks as [|k ks IH]; intros m ex m'; simpl; [done|].
  unfold bind.
  destruct (discard_from_index k e m) as [[] m1|ex1 m1] eqn:Hk.
  - apply IH.
  - intros [= <- _]. by eapply discard_from_index_raises_KeyError.
Qed.

Lemma remove_entity_raises_KeyError e b m ex m' :
  remove_entity e b m = Raise ex m' → ex = KeyError.
Proof.
  destruct b; [|done].
  unfold remove_entity, del_entity, bind, get, getitem, raise, ret, modify.
  simpl.
  destruct (_entities m !! e) as [row|]; simpl; [|by intros [= <- _]].
  destruct (for_each _ _ m) as [[] m1|ex1 m1] eqn:Hloop; simpl.
  - destruct (_entities m1 !! e); simpl; [done|by intros [= <- _]].
  - intros [= <- _]. by eapply discard_loop_raises_KeyError.
Qed.

Lemma purge_loop_raises_KeyError es : ∀ m ex m',
  for_each es (λ e, remove_entity e true) m = Raise ex m' → ex = KeyError.
Proof.
  induction es as [|e es IH]; intros m ex m'; simpl; [done|].
  unfold bind.
  destruct (remove_entity e true m) as [[] m1|ex1 m1] eqn:He.
  - apply IH.
  - intros [= <- _]. by eapply remove_entity_raises_KeyError.
Qed.

Context {Args : Type}.
Context (set_iter : gset Z → list Z).
Context (system_process :
  SysRef → Args → @Manager CType _ _ Component SysRef _ _ →
  @outcome CType _ _ Component SysRef _ _ unit).

Lemma reconcile_raises_KeyError m ex m' :
  reconcile set_iter m = Raise ex m' → ex = KeyError.
Proof.
  unfold reconcile, bind, get, ret, modify. simpl.
  destruct (decide (_dead_entities m = ∅)); [done|].
  destruct (for_each _ _ m) as [[] m1|ex1 m1] eqn:Hloop; simpl; [done|].
  intros [= <- _]. by eapply purge_loop_raises_KeyError.
Qed.

Lemma reconcile_entities_subseteq m :
  _entities (final (reconcile set_iter m)) ⊆ _entities m.
Proof.
  unfold reconcile, bind, get, ret, modify. simpl.
  destruct (decide (_dead_entities m = ∅)); [done|].
  pose proof (purge_loop_entities_subseteq (set_iter (_dead_entities m)) m)
    as Hsub.
  by destruct (for_each _ _ m) as [[] m1|ex1 m1].
Qed.

(** ** A system that raises *)



(** ** A tick with a stale pending entity, for any iteration order *)

Hypothesis set_iter_perm : ∀ s, set_iter s ≡ₚ elements s.

(** X13: while some pending entity has no table row, every tick raises
    [KeyError] during the reconciliation, whatever the iteration order: no
    system's [process] is called, the pending set and the registry stay as
    they are and the pending entity still has no row, so that the next tick
    raises again. *)
Theorem stale_pending_blocks_every_tick args m :
  stale_pending m →
  ∀ fuel, ∃ m',
    process set_iter system_process fuel args m =
      Some ([], Raise KeyError m') ∧
    stale_pending m' ∧
    _dead_entities m' = _dead_entities m ∧
    _systems m' = _systems m.
Proof.
  intros (e & Hin & Hnone) fuel.
  destruct (reconcile_raises set_iter set_iter_perm m) as [Hr Hd]; [by exists e|].
  pose proof (reconcile_frame set_iter m) as (Hsys & _).
  pose proof (reconcile_entities_subseteq m) as Hsub.
  unfold process.
  destruct (reconcile set_iter m) as [[] m'|ex m'] eqn:Hrec; [done|].
  simpl in Hd, Hsys, Hsub.
  rewrite (reconcile_raises_KeyError m ex m' Hrec).
  exists m'. split_and!; try done.
  exists e. rewrite Hd. split; [done|].
  by eapply lookup_weaken_None.
Qed.

End TickMore.

(** * Further properties of the queries *)

Section QueriesMore.

Context {CType : Type} `{Countable CType}.
Context {Component : Type}.
Context {SysRef : Type} `{Countable SysRef}.
Context (set_iter : gset Z → list Z).

Implicit Types m : @Manager CType _ _ Component SysRef _ _.
Implicit Types entity e : Z.
Implicit Types T : CType.

Lemma get_components_loop_no_exception m Ts es :
  (get_components_loop m Ts es).2 = None.
Proof.
  induction es as [|e es IH]; simpl; [done|].
  by destruct (mapM (component_of m e) Ts).
Qed.

(** X14: the only exception that leaves [get_components] is the [TypeError]
    of a call without any type; with at least one type it never raises,
    whatever the state: every [KeyError] is swallowed. *)
Theorem get_components_exception Ts m :
  (get_components set_iter Ts m).2 =
  match Ts with
  | [] => Some TypeError
  | _ :: _ => None
  end.
Proof.
  unfold get_components. destruct Ts as [|T Ts]; [done|].
  destruct (mapM _ (T :: Ts)) as [sets|] eqn:Hsets; [|done].
  apply length_mapM in Hsets.
  destruct sets as [|s0 sets]; [done|]. simpl.
  apply get_components_loop_no_exception.
Qed.

Lemma get_loops_agree m T es :
  (get_components_loop m [T] es).1 =
  (λ p, (p.1, [p.2])) <$> (get_component_loop m T es).1.
Proof.
  induction es as [|e es IH]; simpl; [done|].
  destruct (component_of m e T) as [c|]; simpl; [|done].
  by rewrite IH.
Qed.

Lemma get_component_loop_exception m T es :
  match (get_component_loop m T es).2 with
  | None => Forall (λ e, is_Some (component_of m e T)) es
  | Some ex => ex = KeyError ∧ Exists (λ e, component_of m e T = None) es
  end.
Proof.
  induction es as [|e es IH]; simpl; [constructor|].
  destruct (component_of m e T) as [c|] eqn:Hc; simpl.
  - destruct (get_component_loop m T es).2 as [ex|].
    + destruct IH as [-> ?]. split; [done|]. by right.
    + constructor; [by rewrite Hc|done].
  - split; [done|]. by left.
Qed.

Hypothesis set_iter_perm : ∀ s, set_iter s ≡ₚ elements s.

(** X16: [get_component] raises [KeyError], and no other exception, exactly
    when some member of the type's index set holds no component of the
    type; unlike [get_components] it does not swallow the error. *)
Theorem get_component_exception T m :
  ((get_component set_iter T m).2 = None ∨
   (get_component set_iter T m).2 = Some KeyError) ∧
  ((get_component set_iter T m).2 = Some KeyError ↔
   ∃ e, indexed m T e ∧ component_of m e T = None).
Proof using set_iter_perm.
  unfold get_component.
  pose proof (get_component_loop_exception m T
                (match _components m !! T with
                 | Some s => set_iter s
                 | None => []
                 end)) as Hloop.
  destruct (get_component_loop m T _).2 as [ex|].
  - destruct Hloop as [-> Hex]. split; [by right|]. split; [|done].
    intros _. apply Exists_exists in Hex as (e & Hin & Hnone).
    exists e. split; [|done].
    destruct (_components m !! T) as [s|] eqn:Hs;
      [|by apply elem_of_nil in Hin].
    exists s. split; [done|].
    by rewrite set_iter_perm, elem_of_elements in Hin.
  - split; [by left|]. split; [done|].
    intros (e & (s & Hs & Hin) & Hnone). rewrite Hs in Hloop.
    rewrite Forall_forall in Hloop.
    destruct (Hloop e) as [c Hc]; [|congruence].
    by rewrite set_iter_perm, elem_of_elements.
Qed.

Lemma get_component_sound_yields T m :
  (∀ e, indexed m T e → is_Some (component_of m e T)) →
  ∃ ys,
    get_component set_iter T m = (ys, None) ∧
    NoDup ys.*1 ∧
    (∀ e c, (e, c) ∈ ys ↔ indexed m T e ∧ component_of m e T = Some c) ∧
    (_components m !! T = None → ys = []).
Proof using set_iter_perm.
  intros Hsound. unfold get_component.
  destruct (_components m !! T) as [s|] eqn:Hs.
  - destruct (get_component_loop_total m T (set_iter s))
      as (ys & -> & Hfst & Hys).
    { intros e He. apply Hsound. exists s. split; [done|].
      by rewrite set_iter_perm, elem_of_elements in He. }
    exists ys. split_and!; [done| | |done].
    + rewrite Hfst, set_iter_perm. apply NoDup_elements.
    + intros e c. rewrite Hys, set_iter_perm, elem_of_elements.
      unfold indexed. rewrite Hs. naive_solver.
  - exists []. split_and!; try done; [constructor|].
    intros e c. split; [by intros ?%elem_of_nil|].
    intros [(s & Hs' & _) _]. congruence.
Qed.

(** X17: when every member of the type's index set holds a component of the
    type, [get_component] runs to its end and yields each member of the
    index set exactly once, paired with that component, and nothing else;
    for a type without index set it yields nothing. *)
Theorem get_component_yields_index T m :
  (∀ e, indexed m T e → is_Some (component_of m e T)) →
  ∃ ys,
    get_component set_iter T m = (ys, None) ∧
    NoDup ys.*1 ∧
    (∀ e c, (e, c) ∈ ys ↔ indexed m T e ∧ component_of m e T = Some c) ∧
    (_components m !! T = None → ys = []).
Proof using set_iter_perm. apply get_component_sound_yields. Qed.

Lemma get_component_loop_omap m T es :
  (∀ e, e ∈ es → is_Some (component_of m e T)) →
  (get_component_loop m T es).1 =
  omap (λ e, pair e <$> component_of m e T) es.
Proof.
  induction es as [|x es IH]; intros Hes; simpl; [done|].
  destruct (Hes x) as [c Hc]; [by left|]. rewrite Hc. simpl.
  rewrite IH; [done|]. intros e He. apply Hes. by right.
Qed.

(** X15: when every member of the type's index set holds a component of the
    type, [get_components] asked for that single type and [get_component]
    both run to their end and yield the same entities with the same
    components, each component wrapped in a one-element list by
    [get_components].  The two may yield them in different orders: the one
    iterates the index set, the other the set that [set.intersection] has
    built from it. *)
Theorem get_components_of_one_type (intersection_iter : gset Z → list Z) T m :
  (∀ s, intersection_iter s ≡ₚ elements s) →
  (∀ e, indexed m T e → is_Some (component_of m e T)) →
  (get_component set_iter T m).2 = None ∧
  (get_components intersection_iter [T] m).2 = None ∧
  (get_components intersection_iter [T] m).1 ≡ₚ
    (λ p, (p.1, [p.2])) <$> (get_component set_iter T m).1.
Proof using set_iter_perm.
  intros Hperm Hhold. unfold get_components, get_component. simpl.
  destruct (_components m !! T) as [s|] eqn:Hs; simpl; [|done].
  assert (∀ iter, (∀ s', iter s' ≡ₚ elements s') →
            ∀ e, e ∈ iter s → is_Some (component_of m e T)) as Hall.
  { intros iter Hiter e He. apply Hhold. exists s. split; [done|].
    by rewrite Hiter, elem_of_elements in He. }
  destruct (get_component_loop_total m T (set_iter s)) as (ys & Hrun & _);
    [by apply Hall|].
  split_and!.
  - by rewrite Hrun.
  - apply get_components_loop_no_exception.
  - rewrite get_loops_agree. apply fmap_Permutation.
    rewrite !get_component_loop_omap by by apply Hall.
    apply omap_Permutation. by rewrite Hperm, set_iter_perm.
Qed.

(** X18: in a consistent state the three views of "the entity holds the
    type" agree: [has_component] answers [True], the entity is in the type's
    index set, and [get_component] yields the entity. *)
Theorem has_component_iff_yielded e T m :
  consistent m →
  (has_component e T m = Return true m ↔ indexed m T e) ∧
  (indexed m T e ↔ e ∈ (get_component set_iter T m).1.*1).
Proof using set_iter_perm.
  intros Hcons. split; [by apply has_component_iff_index_member|].
  destruct (get_component_sound_yields T m) as (ys & -> & _ & Hys & _).
  { intros x (s & Hs & Hin). by apply (proj1 Hcons T s x). }
  simpl. rewrite list_elem_of_fmap. split.
  - intros Hin. destruct Hcons as (Hs & _).
    destruct Hin as (s & Hs' & Hin).
    destruct (Hs T s e Hs' Hin) as [c Hc].
    exists (e, c). split; [done|]. apply Hys. split; [by exists s|done].
  - intros ([e' c] & -> & Hin). by apply Hys in Hin as [? _].
Qed.

End QueriesMore.

(** * Invariants of every method *)

Section InvariantsMore.

Context {CType : Type} `{Countable CType}.
Context {Component : Type}.
Context {SysRef : Type} `{Countable SysRef}.

Implicit Types m : @Manager CType _ _ Component SysRef _ _.
Implicit Types entity e x : Z.
Implicit Types T : CType.

#[local] Arguments remove_entity : simpl never.
#[local] Arguments add_component_to_entity : simpl never.
#[local] Arguments discard_from_index : simpl never.
#[local] Arguments remove_component_from_entity : simpl never.
#[local] Arguments new_entity : simpl never.
#[local] Arguments reconcile : simpl never.

(** ** The table-to-index half of the consistency *)

Lemma table_indexed_ext m m' :
  _entities m' = _entities m →
  _components m' = _components m →
  table_indexed m → table_indexed m'.
Proof.
  intros He Hc [Hcm Hn]. split.
  - intros x r T. rewrite He, Hc. apply Hcm.
  - intros T s. rewrite Hc. apply Hn.
Qed.

Lemma remove_component_table_indexed T e m :
  table_indexed m →
  table_indexed (final (remove_component_from_entity T e m)).
Proof.
  intros [Hc Hn].
  destruct (_components m !! T) as [s|] eqn:Hs.
  2:{ rewrite remove_component_from_entity_eq, Hs. by split. }
  destruct (component_of m e T) as [c|] eqn:Hcomp.
  - destruct (remove_component_returns T e s c m Hs Hcomp)
      as (m' & row & -> & Hrow & Hcl & Hel & _). simpl. split.
    + intros x r T'. rewrite Hcl, Hel. intros Hx HrT'.
      assert (∃ r0, _entities m !! x = Some r0 ∧ is_Some (r0 !! T') ∧
                    (x = e → T' ≠ T)) as (r0 & Hr0 & HT0 & Hne).
      { destruct (decide (x = e)) as [->|Hxe].
        - destruct (decide (delete T row = ∅)); [done|]. injection Hx as <-.
          exists row. split; [done|].
          destruct (decide (T' = T)) as [->|HTT].
          + rewrite lookup_delete_eq in HrT'. by destruct HrT'.
          + rewrite lookup_delete_ne in HrT' by done. done.
        - exists r. done. }
      destruct (Hc _ _ _ Hr0 HT0) as (s0 & Hs0 & Hx0).
      destruct (decide (T' = T)) as [->|HTT]; [|eauto].
      assert (s0 = s) as -> by congruence.
      assert (x ≠ e) as Hxe by (intros ->; by apply Hne).
      exists (s ∖ {[e]}). split; [|set_solver].
      apply purge_Some. set_solver.
    + intros T' s'. rewrite Hcl.
      destruct (decide (T' = T)) as [->|HTT]; [|exact (Hn T' s')].
      intros Hp. by apply purge_Some in Hp as [_ ?].
  - assert (final (remove_component_from_entity T e m) =
            set_components
              (match purge e s with
               | Some s' => <[T := s']> (_components m)
               | None => delete T (_components m)
               end) m) as ->.
    { rewrite remove_component_from_entity_eq, Hs. simpl.
      unfold component_of in Hcomp.
      destruct (_entities m !! e) as [row|]; simpl in Hcomp |- *; [|done].
      by rewrite Hcomp. }
    assert (Hcl : ∀ T', (match purge e s with
                         | Some s' => <[T := s']> (_components m)
                         | None => delete T (_components m)
                         end) !! T' =
                        if decide (T' = T) then purge e s
                        else _components m !! T').
    { intros T'. destruct (purge e s); destruct (decide (T' = T)) as [->|];
        by rewrite ?lookup_insert_eq, ?lookup_insert_ne,
                   ?lookup_delete_eq, ?lookup_delete_ne by done. }
    split.
    + intros x r T'. simpl. rewrite Hcl. intros Hx HrT'.
      destruct (Hc _ _ _ Hx HrT') as (s0 & Hs0 & Hx0).
      destruct (decide (T' = T)) as [->|HTT]; [|eauto].
      assert (s0 = s) as -> by congruence.
      assert (x ≠ e) as Hxe.
      { intros ->. unfold component_of in Hcomp. rewrite Hx in Hcomp.
        simpl in Hcomp. rewrite Hcomp in HrT'. by destruct HrT'. }
      exists (s ∖ {[e]}). split; [|set_solver].
      apply purge_Some. set_solver.
    + intros T' s'. simpl. rewrite Hcl.
      destruct (decide (T' = T)) as [->|HTT]; [|exact (Hn T' s')].
      intros Hp. by apply purge_Some in Hp as [_ ?].
Qed.

Lemma remove_entity_table_indexed e b m :
  table_indexed m → table_indexed (final (remove_entity e b m)).
Proof.
  intros [Hc Hn]. destruct b; [|by split].
  destruct (_entities m !! e) as [row|] eqn:Hrow.
  - destruct (remove_entity_immediate e row m Hrow Hc) as (m' & -> & Hrem).
    simpl. split.
    + by eapply removed_index_complete.
    + by eapply removed_no_empty_index.
  - rewrite remove_entity_missing by done. by split.
Qed.

Lemma purge_loop_table_indexed es : ∀ m,
  table_indexed m →
  table_indexed (final (for_each es (λ e, remove_entity e true) m)).
Proof.
  induction es as [|e es IH]; intros m Hm; simpl; [done|].
  unfold bind.
  pose proof (remove_entity_table_indexed e true m Hm) as Hstep.
  destruct (remove_entity e true m) as [[] m1|ex m1]; simpl in Hstep |- *;
    [|done].
  by apply IH.
Qed.

Context {SType : Type} `{EqDecision SType} (sys_type : SysRef → SType).
Context (is_SystemTemplate : SType → bool).

Lemma remove_system_entities_components st m :
  ∃ m',
    remove_system sys_type st m = Some (Return tt m') ∧
    _entities m' = _entities m ∧ _components m' = _components m.
Proof.
  unfold remove_system.
  destruct (remove_system_loop_steps sys_type st
              (S (length (_systems m))) 0 m) as (m' & Hrun & Hrtc); [lia|].
  exists m'. split; [done|].
  by apply removes_many_facts in Hrtc as (_ & _ & _ & _ & _ & _ & ? & ? & _).
Qed.

Lemma add_system_entities_components s m :
  _entities (final (add_system sys_type is_SystemTemplate s m)) = _entities m ∧
  _components (final (add_system sys_type is_SystemTemplate s m)) =
    _components m.
Proof.
  unfold add_system, bind, ret, raise, modify.
  by destruct (is_SystemTemplate (sys_type s)).
Qed.

Context (type_of : Component → CType).
Context {Args : Type}.
Context (set_iter : gset Z → list Z).
Context (system_process :
  SysRef → Args → @Manager CType _ _ Component SysRef _ _ →
  @outcome CType _ _ Component SysRef _ _ unit).

Lemma reconcile_table_indexed m :
  table_indexed m → table_indexed (final (reconcile set_iter m)).
Proof.
  intros Hm. unfold reconcile, bind, get, ret, modify. simpl.
  destruct (decide (_dead_entities m = ∅)); [done|].
  pose proof (purge_loop_table_indexed (set_iter (_dead_entities m)) m Hm)
    as Hloop.
  destruct (for_each _ _ m) as [[] m1|ex m1]; simpl in Hloop |- *; [|done].
  by apply (table_indexed_ext m1).
Qed.

(** X19: whatever the outcome of the call (a return or a raise), every
    method keeps the table-to-index half of the consistency (an entity is in
    the index set of every type its row holds) and the absence of empty
    index sets; so does a tick whose systems keep it.  The initial state
    satisfies both. *)
Theorem table_indexed_preserved m :
  table_indexed m →
  (∀ c e, table_indexed (final (add_component_to_entity type_of c e m))) ∧
  (∀ T e, table_indexed (final (remove_component_from_entity T e m))) ∧
  (∀ e b, table_indexed (final (remove_entity e b m))) ∧
  (∀ cs, table_indexed (final (new_entity type_of cs m))) ∧
  table_indexed (final (clear_database m)) ∧
  (∀ s, table_indexed (final (add_system sys_type is_SystemTemplate s m))) ∧
  (∀ st, ∃ m', remove_system sys_type st m = Some (Return tt m') ∧
               table_indexed m') ∧
  table_indexed (final (reconcile set_iter m)) ∧
  (∀ fuel args calls o,
     (∀ s a m0, table_indexed m0 →
                table_indexed (final (system_process s a m0))) →
     process set_iter system_process fuel args m = Some (calls, o) →
     table_indexed (final o)) ∧
  table_indexed (init : @Manager CType _ _ Component SysRef _ _).
Proof.
  intros Hm. split_and!.
  - intros c e. destruct Hm. split.
    + by apply add_component_index_complete.
    + by apply add_component_no_empty_index.
  - intros T e. by apply remove_component_table_indexed.
  - intros e b. by apply remove_entity_table_indexed.
  - intros cs. by apply new_entity_index_complete.
  - destruct (clear_database_consistent m) as (_ & ? & ?). by split.
  - intros s. destruct (add_system_entities_components s m).
    by apply (table_indexed_ext m).
  - intros st.
    destruct (remove_system_entities_components st m) as (m' & Hrun & ? & ?).
    exists m'. split; [done|]. by apply (table_indexed_ext m).
  - by apply reconcile_table_indexed.
  - intros fuel args calls o Hsys. unfold process.
    pose proof (reconcile_table_indexed m Hm) as Hrec.
    destruct (reconcile set_iter m) as [[] m1|ex m1]; simpl in Hrec.
    + intros Hd.
      by destruct (dispatch_preserves system_process table_indexed args Hsys
                     fuel 0 m1 calls o Hrec Hd).
    + by intros [= <- <-].
  - destruct (@init_consistent CType _ _ Component SysRef _ _) as (_ & ? & ?).
    by split.
Qed.

(** ** The components of a new entity *)

Lemma attach_loop_row cs : ∀ m,
  ∃ m',
    for_each cs
      (λ c, bind get (λ m0,
              add_component_to_entity type_of c (_next_entity_id m0))) m =
      Return tt m' ∧
    _next_entity_id m' = _next_entity_id m ∧
    (∀ T, component_of m' (_next_entity_id m) T =
          match last (filter (λ c, type_of c = T) cs) with
          | Some c => Some c
          | None => component_of m (_next_entity_id m) T
          end) ∧
    (∀ x T, x ≠ _next_entity_id m →
            component_of m' x T = component_of m x T) ∧
    (∀ x T, indexed m' T x ↔
            indexed m T x ∨
            (x = _next_entity_id m ∧ ∃ c, c ∈ cs ∧ type_of c = T)) ∧
    _systems m' = _systems m ∧
    _dead_entities m' = _dead_entities m.
Proof.
  induction cs as [|c cs IH]; intros m.
  - exists m. split_and!; try done.
    intros x T. split; [by left|]. intros [?|(_ & c & ?%elem_of_nil & _)]; done.
  - destruct (add_component_frame type_of c (_next_entity_id m) m)
      as (m1 & Hrun & Hset & Hidx & Hothers & Hidxo & Hsys & Hid & Hdead).
    destruct (IH m1) as (m' & Hloop & Hid' & Hrow & Hrest & Hix & Hsys' & Hdead').
    exists m'. rewrite Hid in *. split_and!; try congruence.
    + simpl. unfold bind at 1. unfold bind at 1. simpl. by rewrite Hrun.
    + intros T. rewrite Hrow. rewrite filter_cons.
      destruct (decide (type_of c = T)) as [<-|HT].
      * rewrite last_cons. destruct (last (filter _ cs)); [done|].
        done.
      * destruct (last (filter _ cs)); [done|].
        apply Hothers. congruence.
    + intros x T Hx. rewrite Hrest by done. apply Hothers. congruence.
    + intros x T. rewrite Hix.
      destruct (decide ((x, T) = (_next_entity_id m, type_of c)))
        as [[= -> ->]|Hne].
      * split; [|by left]. intros _. right. split; [done|].
        exists c. split; [by left|done].
      * rewrite (Hidxo x T Hne). split.
        -- intros [?|(-> & c' & Hin & <-)]; [by left|].
           right. split; [done|]. exists c'. split; [by right|done].
        -- intros [?|(-> & c' & Hin & <-)]; [by left|].
           apply elem_of_cons in Hin as [->|Hin]; [done|].
           right. split; [done|]. by exists c'.
Qed.

Lemma new_entity_row cs m :
  ∃ m',
    new_entity type_of cs m = Return (_next_entity_id m + 1)%Z m' ∧
    _next_entity_id m' = (_next_entity_id m + 1)%Z ∧
    (∀ T, component_of m' (_next_entity_id m + 1)%Z T =
          last (filter (λ c, type_of c = T) cs)) ∧
    (∀ x T, x ≠ (_next_entity_id m + 1)%Z →
            component_of m' x T = component_of m x T) ∧
    (∀ x T, indexed m' T x ↔
            indexed m T x ∨
            (x = (_next_entity_id m + 1)%Z ∧ ∃ c, c ∈ cs ∧ type_of c = T)) ∧
    _systems m' = _systems m ∧
    _dead_entities m' = _dead_entities m.
Proof.
  set (m0 := set_entities
               (<[(_next_entity_id m + 1)%Z := ∅]> (_entities m))
               (set_next_entity_id (_next_entity_id m + 1)%Z m)).
  destruct (attach_loop_row cs m0)
    as (m' & Hloop & Hid & Hrow & Hrest & Hix & Hsys & Hdead).
  change (_next_entity_id m0) with (_next_entity_id m + 1)%Z in *.
  exists m'. split_and!; try done.
  - unfold new_entity. unfold bind at 1. simpl. unfold bind at 1. simpl.
    unfold bind at 1. fold m0. rewrite Hloop. simpl.
    unfold bind, get, ret. by rewrite Hid.
  - intros T. rewrite Hrow.
    destruct (last (filter _ cs)); [done|].
    unfold component_of, m0. simpl. rewrite lookup_insert_eq. simpl.
    apply lookup_empty.
  - intros x T Hx. rewrite Hrest by done.
    unfold component_of, m0. simpl. by rewrite lookup_insert_ne.
Qed.

(** X20: [new_entity] returns the counter plus one, for every state; the new
    entity then holds, under each class, the last of the given components
    of that class and nothing else, whatever row the id had; it is in the
    index set of the class of every given component; every other entity
    keeps its components and every index set keeps its other members. *)
Theorem new_entity_holds_components cs m :
  ∃ m',
    new_entity type_of cs m = Return (_next_entity_id m + 1)%Z m' ∧
    _next_entity_id m' = (_next_entity_id m + 1)%Z ∧
    (∀ T, component_of m' (_next_entity_id m + 1)%Z T =
          last (filter (λ c, type_of c = T) cs)) ∧
    (∀ x T, x ≠ (_next_entity_id m + 1)%Z →
            component_of m' x T = component_of m x T) ∧
    (∀ x T, indexed m' T x ↔
            indexed m T x ∨
            (x = (_next_entity_id m + 1)%Z ∧ ∃ c, c ∈ cs ∧ type_of c = T)) ∧
    _systems m' = _systems m ∧
    _dead_entities m' = _dead_entities m.
Proof. apply new_entity_row. Qed.

(** ** Ids after [clear_database] *)

(** X23: [clear_database] restarts the id counter and keeps the systems:
    whatever ids were issued before it, the next [new_entity] returns the
    id 1 again; the state is then consistent, the entity 1 is the only one
    that holds a component or is in an index set, no entity is pending, and
    the registry is the one from before [clear_database]. *)
Theorem clear_database_restarts_ids cs m :
  ∃ m',
    new_entity type_of cs (final (clear_database m)) = Return 1%Z m' ∧
    consistent m' ∧
    (∀ x T, x ≠ 1%Z → component_of m' x T = None) ∧
    (∀ x T, indexed m' T x → x = 1%Z) ∧
    _dead_entities m' = ∅ ∧
    _systems m' = _systems m.
Proof.
  set (m0 := final (clear_database m)).
  destruct (new_entity_row cs m0)
    as (m' & Hrun & _ & _ & Hrest & Hix & Hsys & Hdead).
  exists m'. split_and!.
  - exact Hrun.
  - pose proof (new_entity_consistent type_of cs m0
                  (clear_database_consistent m) eq_refl) as Hcons.
    by rewrite Hrun in Hcons.
  - intros x T Hx. rewrite Hrest by done.
    unfold component_of. simpl. by rewrite lookup_empty.
  - intros x T [(s & Hs & _)|[-> _]]%Hix; [|done].
    simpl in Hs. by rewrite lookup_empty in Hs.
  - by rewrite Hdead.
  - by rewrite Hsys.
Qed.

(** ** Well-typed rows *)

Lemma well_typed_shrink m m' :
  (∀ x r, _entities m' !! x = Some r →
          ∃ r0, _entities m !! x = Some r0 ∧ r ⊆ r0) →
  well_typed type_of m → well_typed type_of m'.
Proof.
  intros Hsub Hwt x r T c Hx Hc.
  destruct (Hsub x r Hx) as (r0 & Hr0 & Hle).
  apply (Hwt x r0 T c Hr0). by eapply lookup_weaken.
Qed.

Lemma well_typed_subseteq m m' :
  _entities m' ⊆ _entities m → well_typed type_of m → well_typed type_of m'.
Proof.
  intros Hsub. apply well_typed_shrink. intros x r Hx.
  exists r. split; [by eapply lookup_weaken|done].
Qed.

Lemma add_component_well_typed c e m :
  well_typed type_of m →
  well_typed type_of (final (add_component_to_entity type_of c e m)).
Proof.
  intros Hwt. rewrite add_component_to_entity_eq. simpl.
  intros x r T c'. simpl.
  destruct (decide (x = e)) as [->|Hxe].
  - rewrite lookup_insert_eq. intros [= <-].
    destruct (decide (T = type_of c)) as [->|HT].
    + rewrite lookup_insert_eq. by intros [= <-].
    + rewrite lookup_insert_ne by done.
      destruct (_entities m !! e) as [row|] eqn:Hrow; simpl.
      * apply (Hwt e row T c' Hrow).
      * by rewrite lookup_empty.
  - rewrite lookup_insert_ne by done. apply Hwt.
Qed.

Lemma remove_component_well_typed T e m :
  well_typed type_of m →
  well_typed type_of (final (remove_component_from_entity T e m)).
Proof.
  apply well_typed_shrink. intros x r.
  rewrite remove_component_from_entity_eq.
  destruct (_components m !! T) as [s|]; simpl; [|eauto].
  destruct (_entities m !! e) as [row|] eqn:Hrow; simpl; [|eauto].
  destruct (row !! T); simpl; [|eauto].
  destruct (decide (delete T row = ∅)).
  - intros Hx. apply lookup_delete_Some in Hx as [_ Hx]. eauto.
  - destruct (decide (x = e)) as [->|Hxe].
    + rewrite lookup_insert_eq. intros [= <-].
      exists row. split; [done|apply delete_subseteq].
    + rewrite lookup_insert_ne by done. eauto.
Qed.

Lemma init_well_typed :
  well_typed type_of (init : @Manager CType _ _ Component SysRef _ _).
Proof. intros x r T c. simpl. by rewrite lookup_empty. Qed.

Lemma new_entity_well_typed cs m :
  well_typed type_of m → well_typed type_of (final (new_entity type_of cs m)).
Proof.
  intros Hm.
  destruct (new_entity_spec type_of (well_typed type_of) cs m)
    as (m' & -> & ? & _); [| |done].
  - intros c e m0. apply add_component_well_typed.
  - intros x r T c. simpl.
    destruct (decide (x = (_next_entity_id m + 1)%Z)) as [->|Hne].
    + rewrite lookup_insert_eq. intros [= <-]. by rewrite lookup_empty.
    + rewrite lookup_insert_ne by done. apply Hm.
Qed.

(** X21: whatever the outcome of the call, every method keeps the rows well
    typed (each component is stored under its own class); so does a tick
    whose systems keep them so.  The initial state is well typed. *)
Theorem well_typed_preserved m :
  well_typed type_of m →
  (∀ c e, well_typed type_of (final (add_component_to_entity type_of c e m))) ∧
  (∀ T e, well_typed type_of (final (remove_component_from_entity T e m))) ∧
  (∀ e b, well_typed type_of (final (remove_entity e b m))) ∧
  (∀ cs, well_typed type_of (final (new_entity type_of cs m))) ∧
  well_typed type_of (final (clear_database m)) ∧
  (∀ s, well_typed type_of
          (final (add_system sys_type is_SystemTemplate s m))) ∧
  (∀ st, ∃ m', remove_system sys_type st m = Some (Return tt m') ∧
               well_typed type_of m') ∧
  well_typed type_of (final (reconcile set_iter m)) ∧
  (∀ fuel args calls o,
     (∀ s a m0, well_typed type_of m0 →
                well_typed type_of (final (system_process s a m0))) →
     process set_iter system_process fuel args m = Some (calls, o) →
     well_typed type_of (final o)) ∧
  well_typed type_of (init : @Manager CType _ _ Component SysRef _ _).
Proof.
  intros Hm. split_and!.
  - intros c e. by apply add_component_well_typed.
  - intros T e. by apply remove_component_well_typed.
  - intros e b. revert Hm. apply well_typed_subseteq.
    apply remove_entity_entities_subseteq.
  - intros cs. by apply new_entity_well_typed.
  - rewrite clear_database_eq. intros x r T c. simpl. by rewrite lookup_empty.
  - intros s. revert Hm. apply well_typed_subseteq.
    by destruct (add_system_entities_components s m) as [-> _].
  - intros st.
    destruct (remove_system_entities_components st m) as (m' & Hrun & He & _).
    exists m'. split; [done|]. revert Hm. apply well_typed_subseteq.
    by rewrite He.
  - revert Hm. apply well_typed_subseteq. apply reconcile_entities_subseteq.
  - intros fuel args calls o Hsys. unfold process.
    assert (well_typed type_of (final (reconcile set_iter m))) as Hrec.
    { revert Hm. apply well_typed_subseteq.
      apply reconcile_entities_subseteq. }
    destruct (reconcile set_iter m) as [[] m1|ex m1]; simpl in Hrec.
    + intros Hd.
      by destruct (dispatch_preserves system_process (well_typed type_of)
                     args Hsys fuel 0 m1 calls o Hrec Hd).
    + by intros [= <- <-].
  - apply init_well_typed.
Qed.

(** X22: for an entity with a table row, in a state with well-typed rows,
    [get_all_components_from_entity] returns as many instances as the row
    has types, no two of the same class, and exactly the instances that
    [get_component_from_entity] returns for their class. *)
Theorem get_all_components_one_per_class e row m :
  well_typed type_of m →
  _entities m !! e = Some row →
  ∃ cs,
    get_all_components_from_entity e m = Return cs m ∧
    length cs = size row ∧
    NoDup (type_of <$> cs) ∧
    ∀ c, c ∈ cs ↔ get_component_from_entity (type_of c) e m = Return c m.
Proof.
  intros Hwt Hrow. exists (map_to_list row).*2. split_and!.
  - unfold get_all_components_from_entity, bind, get, getitem, ret. simpl.
    by rewrite Hrow.
  - by rewrite length_fmap, length_map_to_list.
  - assert (type_of <$> (map_to_list row).*2 = (map_to_list row).*1) as ->.
    { rewrite <- list_fmap_compose. apply list_fmap_ext.
      intros i [T c] Hi. simpl. apply (Hwt e row T c Hrow).
      apply elem_of_map_to_list. by eapply list_elem_of_lookup_2. }
    apply NoDup_fst_map_to_list.
  - intros c. rewrite get_component_from_entity_eq.
    unfold component_of. rewrite Hrow. simpl.
    rewrite list_elem_of_fmap. split.
    + intros ([T c'] & -> & Hin). simpl.
      apply elem_of_map_to_list in Hin.
      rewrite (Hwt e row T c' Hrow Hin). by rewrite Hin.
    + destruct (row !! type_of c) as [c'|] eqn:Hc; [|done].
      intros [= ->]. exists (type_of c, c). split; [done|].
      by apply elem_of_map_to_list.
Qed.

End InvariantsMore.

(** * Errors and the tick *)

Section ErrorsAndTick.

Context {CType : Type} `{Countable CType}.
Context {Component : Type}.
Context {SysRef : Type} `{Countable SysRef}.

Implicit Types m : @Manager CType _ _ Component SysRef _ _.
Implicit Types entity e x : Z.
Implicit Types T : CType.

#[local] Arguments remove_entity : simpl never.
#[local] Arguments add_component_to_entity : simpl never.
#[local] Arguments discard_from_index : simpl never.
#[local] Arguments remove_component_from_entity : simpl never.
#[local] Arguments new_entity : simpl never.
#[local] Arguments reconcile : simpl never.

Ltac monad_unfold :=
  unfold bind, get, modify, ret, raise, getitem; simpl.

(** ** An entity without a table row *)






(** ** The calls of one tick *)

Context {Args : Type}.
Context (system_process :
  SysRef → Args → @Manager CType _ _ Component SysRef _ _ →
  @outcome CType _ _ Component SysRef _ _ unit).

Lemma calls_of_systems (l : list SysRef) args : ∀ m,
  call_system <$> calls_of system_process l args m = l ∧
  Forall (λ c, call_args c = args) (calls_of system_process l args m) ∧
  (∀ c, head (calls_of system_process l args m) = Some c → call_state c = m).
Proof.
  induction l as [|s l IH]; intros m.
  - split_and!; [done|constructor|done].
  - destruct (IH (final (system_process s args m))) as (Hsys & Hargs & _).
    split_and!.
    + change (s :: (call_system <$>
                      calls_of system_process l args
                        (final (system_process s args m))) = s :: l).
      by rewrite Hsys.
    + by constructor.
    + by intros c [= <-].
Qed.

Lemma dispatch_calls_return args : ∀ fuel i m,
  i ≤ length (_systems m) →
  length (_systems m) - i < fuel →
  calls_return system_process (drop i (_systems m)) args m →
  dispatch system_process fuel i args m =
  Some (calls_of system_process (drop i (_systems m)) args m,
        Return tt (state_after system_process (drop i (_systems m)) args m)).
Proof.
  induction fuel as [|fuel IH]; intros i m Hi Hlen Hret; [lia|].
  simpl. destruct (_systems m !! i) as [s|] eqn:Hs.
  - apply lookup_lt_Some in Hs as Hlt.
    rewrite (drop_S _ s i Hs) in Hret |- *. simpl in Hret |- *.
    destruct (system_process s args m) as [[] m1|ex m1]; [|done].
    destruct Hret as [Hsys Hret]. simpl. rewrite <- Hsys in Hret |- *.
    rewrite (IH (S i) m1); [done|rewrite Hsys; lia..|done].
  - apply lookup_ge_None in Hs. by rewrite drop_ge by done.
Qed.

Context (set_iter : gset Z → list Z).
Hypothesis set_iter_perm : ∀ s, set_iter s ≡ₚ elements s.

(** ** A reconciliation that raises part of the way *)

Lemma for_each_app {A} (l1 l2 : list A)
    (body : A → @M CType _ _ Component SysRef _ _ unit) m :
  for_each (l1 ++ l2) body m =
  match for_each l1 body m with
  | Return _ m1 => for_each l2 body m1
  | Raise ex m1 => Raise ex m1
  end.
Proof.
  revert m. induction l1 as [|x l1 IH]; intros m; simpl; [done|].
  unfold bind. destruct (body x m) as [[] m1|ex m1]; [apply IH|done].
Qed.

Lemma reconcile_stops_part_way l1 x l2 m :
  index_complete m →
  set_iter (_dead_entities m) = l1 ++ x :: l2 →
  (∀ y, y ∈ l1 → is_Some (_entities m !! y)) →
  _entities m !! x = None →
  ∃ m',
    reconcile set_iter m = Raise KeyError m' ∧
    (∀ y, y ∈ l1 → _entities m' !! y = None) ∧
    (∀ z, z ∉ l1 → _entities m' !! z = _entities m !! z) ∧
    _dead_entities m' = _dead_entities m.
Proof using set_iter_perm.
  intros Hc Hiter Hrows Hx.
  assert (NoDup l1) as Hnd.
  { apply (NoDup_app l1 (x :: l2)). rewrite <- Hiter, set_iter_perm.
    apply NoDup_elements. }
  destruct (purge_loop l1 m Hnd Hc Hrows)
    as (m1 & Hloop & _ & _ & _ & _ & _ & Hgone & Hkeep).
  pose proof (purge_loop_frame l1 m) as Hf. rewrite Hloop in Hf.
  simpl in Hf. destruct Hf as (_ & _ & Hdead & _).
  assert (x ∉ l1) as Hxl.
  { intros Hin. destruct (Hrows x Hin) as [row Hrow]. congruence. }
  exists m1. split_and!; [|done..].
  unfold reconcile, bind, get, ret, modify. simpl.
  rewrite decide_False.
  2:{ intros Hempty.
      assert (x ∈ set_iter (_dead_entities m)) as Hin.
      { rewrite Hiter. apply elem_of_app. right. by left. }
      rewrite set_iter_perm, elem_of_elements, Hempty in Hin.
      by apply elem_of_empty in Hin. }
  rewrite Hiter, for_each_app, Hloop. simpl. unfold bind.
  rewrite remove_entity_missing; [done|]. by rewrite Hkeep.
Qed.

(** ** The deferred destruction of an entity *)


(** ** Reconciliation, then dispatch *)

(** C7, as amended.  A tick whose pending entities all still have their
    table row (in a state in which every entity is in the index set of each
    type of its row) first destroys every pending entity and empties the
    pending set, and only then dispatches: the systems start from the
    reconciled state, and when each [process] call of the tick returns
    normally and leaves the registry as it is, [process] is called once per
    registered system, in registration order, each time with the arguments
    of the tick and from the state the call before it left.  A tick with a
    pending entity that has no table row raises [KeyError] during the
    reconciliation: no system's [process] is called and the pending set is
    not emptied. *)
Theorem process_reconciles_then_dispatches args m :
  (index_complete m →
   (∀ e, e ∈ _dead_entities m → is_Some (_entities m !! e)) →
   ∃ m1,
     reconcile set_iter m = Return tt m1 ∧
     _dead_entities m1 = ∅ ∧
     (∀ e, e ∈ _dead_entities m → _entities m1 !! e = None) ∧
     (index_sound m → ∀ e, e ∈ _dead_entities m → gone e m1) ∧
     (∀ x, x ∉ _dead_entities m → _entities m1 !! x = _entities m !! x) ∧
     _systems m1 = _systems m ∧
     (∀ fuel,
        process set_iter system_process fuel args m =
        dispatch system_process fuel 0 args m1) ∧
     (calls_return system_process (_systems m) args m1 →
      ∀ fuel, length (_systems m) < fuel →
      ∃ calls m2,
        process set_iter system_process fuel args m =
          Some (calls, Return tt m2) ∧
        calls = calls_of system_process (_systems m) args m1 ∧
        m2 = state_after system_process (_systems m) args m1 ∧
        call_system <$> calls = _systems m ∧
        Forall (λ c, call_args c = args) calls ∧
        (∀ c, head calls = Some c → call_state c = m1))) ∧
  ((∃ e, e ∈ _dead_entities m ∧ _entities m !! e = None) →
   ∀ fuel, ∃ m',
     process set_iter system_process fuel args m =
       Some ([], Raise KeyError m') ∧
     _dead_entities m' = _dead_entities m).
Proof using set_iter_perm.
  split.
  - intros Hc Hlive.
    destruct (reconcile_returns set_iter set_iter_perm m Hc Hlive)
      as (m1 & Hrec & Hd & Hsys & _ & _ & _ & _ & _ & _ & Hge & Hr & Hkeep).
    exists m1. split_and!; try done.
    + intros fuel. unfold process. by rewrite Hrec.
    + intros Hret fuel Hfuel.
      destruct (calls_of_systems (_systems m) args m1)
        as (Hmap & Hargs & Hhead).
      eexists _, _. unfold process. rewrite Hrec.
      split_and!; [|reflexivity|reflexivity|done..].
      pose proof (dispatch_calls_return args fuel 0 m1) as Hrun.
      rewrite drop_0, Hsys in Hrun. apply Hrun; [lia|lia|done].
  - intros Hstale fuel.
    destruct (reconcile_raises set_iter set_iter_perm m Hstale) as [Hr Hd].
    unfold process.
    destruct (reconcile set_iter m) as [[] m'|ex m'] eqn:Hrec; [done|].
    apply reconcile_raises_KeyError in Hrec as ->.
    by exists m'.
Qed.

(** ** What a raised exception leaves behind *)

Context {SType : Type} `{EqDecision SType} (sys_type : SysRef → SType).
Context (is_SystemTemplate : SType → bool).
Context (type_of : Component → CType).

(** C9, as amended.  In every state, a call of
    [get_component_from_entity], [get_all_components_from_entity],
    [has_component] or [add_system] that raises leaves the state as it was,
    and the deferred [remove_entity], [add_component_to_entity],
    [new_entity], [clear_database] and [remove_system] do not raise.  An
    immediate [remove_entity] that raises leaves the state as it was when
    every entity is in the index set of each type of its row.
    [remove_component_from_entity] that raises leaves the state as it was
    when the type's index set, if there is one, is not empty and the entity,
    if in it, holds the type; for an entity that is in the index set without
    holding the type it raises [KeyError] after taking the entity out of the
    index set.
    The tick is not atomic: a reconciliation that raises raises [KeyError]
    and keeps the pending set, the registry, the id counter and the
    back-references, but the table has lost the rows of the pending
    entities that were visited, all with a row, before the one without a
    row at which it stopped; every other row is as before. *)
Theorem raising_call_leaves_state m :
  (∀ T e, atomic m (get_component_from_entity T e m)) ∧
  (∀ e, atomic m (get_all_components_from_entity e m)) ∧
  (∀ e T, atomic m (has_component e T m)) ∧
  (∀ s, atomic m (add_system sys_type is_SystemTemplate s m)) ∧
  (∀ e, ¬ raised (remove_entity e false m)) ∧
  (∀ c e, ¬ raised (add_component_to_entity type_of c e m)) ∧
  (∀ cs, ¬ raised (new_entity type_of cs m)) ∧
  ¬ raised (clear_database m) ∧
  (∀ st, ∃ m', remove_system sys_type st m = Some (Return tt m')) ∧
  (index_complete m → ∀ e, atomic m (remove_entity e true m)) ∧
  (∀ T e,
     (indexed m T e → is_Some (component_of m e T)) →
     _components m !! T ≠ Some ∅ →
     atomic m (remove_component_from_entity T e m)) ∧
  (∀ T e,
     indexed m T e → component_of m e T = None →
     ∃ m', remove_component_from_entity T e m = Raise KeyError m' ∧
           ¬ indexed m' T e) ∧
  (∀ ex m',
     reconcile set_iter m = Raise ex m' →
     ex = KeyError ∧
     _dead_entities m' = _dead_entities m ∧
     _systems m' = _systems m ∧
     _next_entity_id m' = _next_entity_id m ∧
     sys_Manager m' = sys_Manager m ∧
     _entities m' ⊆ _entities m ∧
     ∀ fuel args,
       process set_iter system_process fuel args m =
       Some ([], Raise KeyError m')) ∧
  (∀ l1 x l2,
     index_complete m →
     set_iter (_dead_entities m) = l1 ++ x :: l2 →
     (∀ y, y ∈ l1 → is_Some (_entities m !! y)) →
     _entities m !! x = None →
     ∃ m',
       reconcile set_iter m = Raise KeyError m' ∧
       (∀ y, y ∈ l1 → _entities m' !! y = None) ∧
       (∀ z, z ∉ l1 → _entities m' !! z = _entities m !! z)).
Proof using set_iter_perm.
  split_and!.
  - intros T e. unfold atomic, get_component_from_entity. monad_unfold.
    destruct (_entities m !! e) as [row|]; simpl; [|done].
    by destruct (row !! T).
  - intros e. unfold atomic, get_all_components_from_entity. monad_unfold.
    by destruct (_entities m !! e).
  - intros e T. unfold atomic, has_component. monad_unfold.
    by destruct (_entities m !! e).
  - intros s. unfold atomic, add_system. monad_unfold.
    by destruct (is_SystemTemplate (sys_type s)).
  - intros e. unfold remove_entity, modify. by intros [].
  - intros c e. rewrite add_component_to_entity_eq. by intros [].
  - intros cs. destruct (new_entity_returns type_of cs m) as (m' & -> & _).
    by intros [].
  - rewrite clear_database_eq. by intros [].
  - intros st. unfold remove_system.
    destruct (remove_system_loop_steps sys_type st
                (S (length (_systems m))) 0 m) as (m' & Hrun & _); [lia|].
    eauto.
  - intros Hc e. by apply remove_entity_atomic.
  - intros T e Hhold Hne. unfold atomic.
    rewrite remove_component_from_entity_eq.
    destruct (_components m !! T) as [s|] eqn:HT; [|done]. simpl.
    assert (component_of m e T = None →
            match purge e s with
            | None => delete T (_components m)
            | Some s' => <[T := s']> (_components m)
            end = _components m) as Hsame.
    { intros Hnone.
      assert (e ∉ s) as Hin.
      { intros Hin. destruct Hhold as [c Hc]; [by exists s|]. congruence. }
      assert (purge e s = Some s) as ->.
      { apply purge_Some. split; [|congruence].
        apply set_eq. intros y. rewrite elem_of_difference, elem_of_singleton.
        split; [|by intros []]. intros Hy. split; [done|]. by intros ->. }
      by apply insert_id. }
    unfold component_of in Hsame.
    destruct (_entities m !! e) as [row|]; simpl in Hsame |- *.
    + destruct (row !! T); [done|]. intros _.
      rewrite Hsame by done. apply set_components_id.
    + intros _. rewrite Hsame by done. apply set_components_id.
  - intros T e (s & HT & Hin) Hnone.
    rewrite remove_component_from_entity_eq, HT. simpl.
    eexists. split.
    + unfold component_of in Hnone.
      destruct (_entities m !! e) as [row|]; simpl in Hnone; [|done].
      by rewrite Hnone.
    + intros (s' & Hs' & Hin'). simpl in Hs'.
      destruct (purge e s) as [s0|] eqn:Hp.
      * rewrite lookup_insert_eq in Hs'. injection Hs' as <-.
        apply purge_Some in Hp as [-> _].
        apply elem_of_difference in Hin' as [_ Hne]. apply Hne.
        by apply elem_of_singleton.
      * by rewrite lookup_delete_eq in Hs'.
  - intros ex m' Hrec.
    pose proof (reconcile_frame set_iter m) as (Hsys & Hid & Hback & Hdead).
    pose proof (reconcile_entities_subseteq set_iter m) as Hsub.
    rewrite Hrec in Hsys, Hid, Hback, Hdead, Hsub.
    simpl in Hsys, Hid, Hback, Hdead, Hsub.
    apply reconcile_raises_KeyError in Hrec as Hex. subst ex.
    split_and!; [done|by apply Hdead|done..|].
    intros fuel args. unfold process. by rewrite Hrec.
  - intros l1 x l2 Hc Hiter Hrows Hx.
    destruct (reconcile_stops_part_way l1 x l2 m Hc Hiter Hrows Hx)
      as (m' & Hrec & Hgone & Hkeep & _).
    by exists m'.
Qed.

End ErrorsAndTick.

(** * The concrete application: instances of the further properties *)

Section DemoMore.

Import Demo.

Lemma two_entities_well_typed : well_typed class_of two_entities.
Proof.
  unfold two_entities.
  apply new_entity_well_typed, new_entity_well_typed, init_well_typed.
Qed.

Lemma two_entities_table_indexed : table_indexed two_entities.
Proof. destruct two_entities_consistent as (_ & ? & ?). by split. Qed.

Lemma remove_component_detaches_witness :
  ∃ m',
    remove_component_from_entity Velocity 1 two_entities = Return tt m' ∧
    component_of m' 1 Velocity = None ∧
    ¬ indexed m' Velocity 1 ∧
    get_component_from_entity Velocity 1 m' = Raise KeyError m' ∧
    component_of m' 1 Position = component_of two_entities 1 Position ∧
    (indexed m' Velocity 2 ↔ indexed two_entities Velocity 2).
Proof.
  destruct (remove_component_detaches Velocity 1 {[2; 1]}%Z (Comp Velocity 2)
              two_entities) as (m' & Hrun & ? & ? & ? & Hc & Hi & _);
    [by vm_compute..|].
  exists m'. split_and!; try done.
  - by apply Hc.
  - by apply Hi.
Defined.

Lemma add_component_replaces_witness :
  add_component_to_entity class_of (Comp Position 9) 1
    (final (add_component_to_entity class_of (Comp Position 8) 1
              two_entities)) =
  add_component_to_entity class_of (Comp Position 9) 1 two_entities.
Proof. by apply add_component_replaces. Defined.

Lemma add_then_remove_component_witness :
  remove_component_from_entity Health 1
    (final (add_component_to_entity class_of (Comp Health 5) 1 two_entities))
  = Return tt two_entities.
Proof.
  etrans.
  - apply (add_then_remove_component class_of (Comp Health 5) 1 two_entities
             two_entities_consistent).
    by vm_compute.
  - by vm_compute.
Defined.

Lemma remove_entity_immediate_destroys_witness :
  ∃ m',
    remove_entity 1 true two_entities = Return tt m' ∧
    gone 1 m' ∧
    consistent m' ∧
    component_of m' 2 Position = component_of two_entities 2 Position ∧
    (indexed m' Position 2 ↔ indexed two_entities Position 2).
Proof.
  destruct (_entities two_entities !! 1%Z) as [row|] eqn:Hrow;
    [|by vm_compute in Hrow].
  destruct (remove_entity_immediate_destroys 1 row two_entities
              two_entities_consistent Hrow)
    as (m' & Hrun & ? & ? & Hc & Hi & _).
  exists m'. split_and!; try done.
  - by apply Hc.
  - by apply Hi.
Defined.

Lemma remove_system_single_match_witness :
  remove_system sys_type Render two_systems =
  Some (Return tt
          (set_systems ([1] ++ [])
             (set_sys_Manager (<[2 := RefNone]> (sys_Manager two_systems))
                two_systems))).
Proof.
  apply remove_system_single_match; [done|done|..]; by repeat constructor.
Defined.

Lemma remove_system_skips_after_match_witness :
  ∃ m',
    remove_system sys_type Movement three_systems = Some (Return tt m') ∧
    _systems m' = skipping_removal sys_type Movement (_systems three_systems).
Proof.
  apply remove_system_skips_after_match.
  change (NoDup [1; 2; 3]). repeat constructor; set_solver.
Defined.

Lemma add_then_remove_system_witness :
  remove_system sys_type (sys_type 3)
    (final (add_system sys_type is_SystemTemplate 3 fresh)) =
  Some (Return tt (set_sys_Manager (<[3 := RefNone]> (sys_Manager fresh)) fresh)).
Proof. apply add_then_remove_system; [done|constructor]. Defined.

Lemma add_twice_then_remove_system_witness :
  ∃ m',
    remove_system sys_type (sys_type 3)
      (final (add_system sys_type is_SystemTemplate 3
         (final (add_system sys_type is_SystemTemplate 3 fresh)))) =
      Some (Return tt m') ∧
    _systems m' = _systems fresh ++ [3] ∧
    sys_Manager m' !! 3 = Some RefNone.
Proof. apply add_twice_then_remove_system; [done|constructor]. Defined.

Lemma stale_pending_blocks_every_tick_witness :
  ∃ m',
    process ascending idle 2 [] stale_only = Some ([], Raise KeyError m') ∧
    stale_pending m' ∧
    _dead_entities m' = _dead_entities stale_only ∧
    _systems m' = _systems stale_only.
Proof.
  apply (stale_pending_blocks_every_tick ascending idle ascending_enumerates).
  exists 1%Z. split; [|by vm_compute].
  change (_dead_entities stale_only) with ({[1%Z]} ∪ ∅ : gset Z). set_solver.
Defined.


Lemma get_component_exception_witness :
  (get_component ascending Position dangling).2 = Some KeyError ∧
  (get_component ascending Position two_entities).2 = None.
Proof.
  split.
  - apply (get_component_exception ascending ascending_enumerates).
    exists 1%Z. split; [|by vm_compute].
    exists {[1%Z]}. split; [by vm_compute|set_solver].
  - destruct (get_component_exception ascending ascending_enumerates
                Position two_entities) as [[?|Hk] Hiff]; [done|].
    apply Hiff in Hk as (e & (s & Hs & Hin) & Hnone).
    destruct two_entities_consistent as (Hsound & _).
    destruct (Hsound Position s e Hs Hin) as [c Hc]. congruence.
Defined.

Lemma get_component_yields_index_witness :
  ∃ ys,
    get_component ascending Position two_entities = (ys, None) ∧
    NoDup ys.*1 ∧
    (∀ e c, (e, c) ∈ ys ↔
            indexed two_entities Position e ∧
            component_of two_entities e Position = Some c) ∧
    (_components two_entities !! Position = None → ys = []).
Proof.
  apply (get_component_yields_index ascending ascending_enumerates).
  intros e (s & Hs & Hin).
  by apply (proj1 two_entities_consistent Position s e).
Defined.

Lemma has_component_iff_yielded_witness :
  (has_component 1 Position two_entities = Return true two_entities ↔
   indexed two_entities Position 1) ∧
  (indexed two_entities Position 1 ↔
   1%Z ∈ (get_component ascending Position two_entities).1.*1).
Proof.
  apply (has_component_iff_yielded ascending ascending_enumerates).
  apply two_entities_consistent.
Defined.

Lemma table_indexed_preserved_witness :
  table_indexed (final (remove_component_from_entity Health 1 two_entities)) ∧
  table_indexed (final (remove_entity 7 true two_entities)) ∧
  table_indexed (final (new_entity class_of [Comp Health 1] two_entities)) ∧
  table_indexed (final (reconcile ascending two_entities)) ∧
  (∃ m', remove_system sys_type Movement two_entities = Some (Return tt m') ∧
         table_indexed m') ∧
  (∃ calls o, process ascending idle 1 [] two_entities = Some (calls, o) ∧
              table_indexed (final o)).
Proof.
  destruct (table_indexed_preserved sys_type is_SystemTemplate class_of
              ascending idle two_entities two_entities_table_indexed)
    as (_ & Hrc & Hre & Hne & _ & _ & Hrs & Hrec & Hproc & _).
  split_and!; [apply Hrc|apply Hre|apply Hne|apply Hrec|apply Hrs|].
  destruct (process ascending idle 1 [] two_entities) as [[calls o]|] eqn:Hp;
    [|by vm_compute in Hp].
  exists calls, o. split; [done|]. by apply (Hproc 1 [] calls o).
Defined.

Lemma well_typed_preserved_witness :
  well_typed class_of
    (final (add_component_to_entity class_of (Comp Health 1) 1 two_entities)) ∧
  well_typed class_of
    (final (remove_component_from_entity Velocity 1 two_entities)) ∧
  well_typed class_of (final (remove_entity 1 true two_entities)) ∧
  (∃ m', remove_system sys_type Movement two_entities = Some (Return tt m') ∧
         well_typed class_of m') ∧
  (∃ calls o, process ascending idle 1 [] two_entities = Some (calls, o) ∧
              well_typed class_of (final o)).
Proof.
  destruct (well_typed_preserved sys_type is_SystemTemplate class_of
              ascending idle two_entities two_entities_well_typed)
    as (Hadd & Hrc & Hre & _ & _ & _ & Hrs & _ & Hproc & _).
  split_and!; [apply Hadd|apply Hrc|apply Hre|apply Hrs|].
  destruct (process ascending idle 1 [] two_entities) as [[calls o]|] eqn:Hp;
    [|by vm_compute in Hp].
  exists calls, o. split; [done|]. by apply (Hproc 1 [] calls o).
Defined.

Lemma get_all_components_one_per_class_witness :
  ∃ cs,
    get_all_components_from_entity 1 two_entities = Return cs two_entities ∧
    length cs = 2 ∧
    NoDup (class_of <$> cs) ∧
    ∀ c, c ∈ cs ↔
         get_component_from_entity (class_of c) 1 two_entities =
         Return c two_entities.
Proof.
  destruct (_entities two_entities !! 1%Z) as [row|] eqn:Hrow;
    [|by vm_compute in Hrow].
  destruct (get_all_components_one_per_class class_of 1 row two_entities
              two_entities_well_typed Hrow) as (cs & Hrun & Hlen & ? & ?).
  exists cs. split_and!; try done.
  rewrite Hlen. vm_compute in Hrow. injection Hrow as <-. by vm_compute.
Defined.

Lemma stale_pending_arises_witness :
  (∃ m', remove_entity 1 false fresh = Return tt m' ∧ stale_pending m') ∧
  (∃ m', remove_entity 1 true both_pending = Return tt m' ∧
         stale_pending m') ∧
  (∃ m', remove_component_from_entity Position 1 live_then_stale =
           Return tt m' ∧
         stale_pending m').
Proof.
  split_and!.
  - by apply (stale_pending_arises 1 fresh).
  - apply (stale_pending_arises 1 both_pending).
    + apply (bool_decide_unpack _). by vm_compute.
    + apply both_pending_consistent.
    + apply both_pending_live. apply (bool_decide_unpack _). by vm_compute.
  - apply (proj2 (proj2 (stale_pending_arises 1 live_then_stale))
             Position (Comp Position 1) {[1%Z]}).
    + apply (bool_decide_unpack _). by vm_compute.
    + by vm_compute.
    + by vm_compute.
Defined.

(** ** The tick and the errors, on concrete states *)

Lemma descending_enumerates (s : gset Z) : descending s ≡ₚ elements s.
Proof.
  unfold descending. rewrite reverse_Permutation. apply ascending_enumerates.
Qed.

Lemma live_then_stale_complete : index_complete live_then_stale.
Proof.
  assert (consistent live_then_stale) as (_ & ? & _); [|done].
  apply (consistent_ext (final (new_entity class_of [Comp Position 1] fresh)));
    [done..|].
  apply new_entity_consistent; [apply fresh_consistent|by vm_compute].
Qed.

(** X15, with the two queries iterating in opposite orders. *)
Lemma get_components_of_one_type_witness :
  (get_component ascending Position two_entities).2 = None ∧
  (get_components descending [Position] two_entities).2 = None ∧
  (get_components descending [Position] two_entities).1 ≡ₚ
    (λ p, (p.1, [p.2])) <$> (get_component ascending Position two_entities).1.
Proof.
  apply (get_components_of_one_type ascending ascending_enumerates descending).
  - apply descending_enumerates.
  - intros e (s & Hs & Hin).
    by apply (proj1 two_entities_consistent Position s e).
Defined.



(** C7: one system is registered and the id 1, which has no row, is
    pending: the tick raises, calls no system and leaves the pending set as
    it was. *)
Lemma process_raises_on_stale_pending :
  _systems stale_only = [1] ∧
  elements (_dead_entities stale_only) = [1%Z] ∧
  _entities stale_only !! 1%Z = None ∧
  process ascending idle 2 [] stale_only =
    Some ([], Raise KeyError stale_only).
Proof. by vm_compute. Qed.

(** C7, as amended, with two pending entities and two systems whose
    [process] would raise in a state with a pending entity, which the calls
    of the tick do not meet; and with a pending id that has no row. *)
Lemma process_reconciles_then_dispatches_witness :
  (∃ m1 calls m2,
     reconcile ascending busy = Return tt m1 ∧
     _dead_entities m1 = ∅ ∧
     raised (wary 1 [7%Z] busy) ∧
     process ascending wary 3 [7%Z] busy = Some (calls, Return tt m2) ∧
     call_system <$> calls = [1; 2] ∧
     Forall (λ c, call_args c = [7%Z]) calls ∧
     (∀ c, head calls = Some c → call_state c = m1)) ∧
  (∃ m',
     process ascending wary 3 [7%Z] stale_only =
       Some ([], Raise KeyError m') ∧
     _dead_entities m' = _dead_entities stale_only).
Proof.
  split.
  - destruct (process_reconciles_then_dispatches wary ascending
                ascending_enumerates [7%Z] busy) as [Hok _].
    destruct Hok as (m1 & Hrec & Hd & _ & _ & _ & Hsys & _ & Hcalls).
    + apply busy_consistent.
    + apply busy_live.
    + destruct Hcalls with (fuel := 3)
        as (calls & m2 & Hrun & _ & _ & ? & ? & ?).
      * change (_systems busy) with [1; 2]. simpl. unfold wary.
        rewrite !decide_True by done. by split_and!.
      * change (length (_systems busy)) with 2. lia.
      * exists m1, calls, m2. split_and!; first [done|by vm_compute].
  - destruct (process_reconciles_then_dispatches wary ascending
                ascending_enumerates [7%Z] stale_only) as [_ Hstale].
    apply Hstale. exists 1%Z. split; [|by vm_compute].
    apply (bool_decide_unpack _). by vm_compute.
Defined.

(** C9: a raising tick and a raising [remove_component_from_entity] that
    leave a changed state.  Entity 1 and the id 2, which has no row, are
    pending: the tick deletes entity 1, raises at 2 and leaves entity 1
    deleted.  After the defect of [new_entity], the id 1 is in the index
    set of [Position] with an empty row: removing its [Position] raises
    after the index set has been deleted. *)
Lemma raising_calls_keep_partial_mutations :
  (ascending (_dead_entities live_then_stale) = [1; 2]%Z ∧
   is_Some (_entities live_then_stale !! 1%Z) ∧
   ∃ m',
     process ascending idle 1 [] live_then_stale =
       Some ([], Raise KeyError m') ∧
     _entities m' !! 1%Z = None ∧
     m' ≠ live_then_stale) ∧
  (ascending <$> _components dangling !! Position = Some [1%Z] ∧
   _entities dangling !! 1%Z = Some ∅ ∧
   ∃ m',
     remove_component_from_entity Position 1 dangling = Raise KeyError m' ∧
     _components m' !! Position = None ∧
     m' ≠ dangling).
Proof.
  split.
  - split; [by vm_compute|]. split; [vm_compute; eauto|].
    eexists. split; [by vm_compute|]. split; [by vm_compute|].
    intros Heq. apply (f_equal (λ m : manager, _entities m !! 1%Z)) in Heq.
    vm_compute in Heq. discriminate.
  - split; [by vm_compute|]. split; [by vm_compute|].
    eexists. split; [by vm_compute|]. split; [by vm_compute|].
    intros Heq.
    apply (f_equal (λ m : manager, _components m !! Position)) in Heq.
    vm_compute in Heq. discriminate.
Qed.

(** C9, as amended: calls that raise and leave the state as it was, on a
    consistent state; the call that raises after a change, and the tick
    that stops part of the way. *)
Lemma raising_call_leaves_state_witness :
  (raised (remove_entity 7 true two_entities) ∧
   final (remove_entity 7 true two_entities) = two_entities) ∧
  (raised (remove_component_from_entity Health 1 two_entities) ∧
   final (remove_component_from_entity Health 1 two_entities) =
     two_entities) ∧
  (raised (has_component 7 Position two_entities) ∧
   final (has_component 7 Position two_entities) = two_entities) ∧
  (∃ m', remove_component_from_entity Position 1 dangling =
           Raise KeyError m' ∧
         ¬ indexed m' Position 1) ∧
  (∃ m', reconcile ascending live_then_stale = Raise KeyError m' ∧
         _entities m' !! 1%Z = None ∧
         _dead_entities m' = _dead_entities live_then_stale ∧
         ∀ fuel args,
           process ascending idle fuel args live_then_stale =
           Some ([], Raise KeyError m')).
Proof.
  pose proof (raising_call_leaves_state idle ascending ascending_enumerates
                sys_type is_SystemTemplate class_of) as Hall.
  split; [|split; [|split; [|split]]].
  - destruct (Hall two_entities)
      as (_ & _ & _ & _ & _ & _ & _ & _ & _ & Hre & _).
    split; [by vm_compute|].
    apply (Hre (proj1 (proj2 two_entities_consistent)) 7%Z). by vm_compute.
  - destruct (Hall two_entities)
      as (_ & _ & _ & _ & _ & _ & _ & _ & _ & _ & Hrc & _).
    split; [by vm_compute|].
    apply (Hrc Health 1%Z); [|by vm_compute|by vm_compute].
    intros (s & Hs & _). by vm_compute in Hs.
  - destruct (Hall two_entities) as (_ & _ & Hhc & _).
    split; [by vm_compute|]. apply (Hhc 7%Z Position). by vm_compute.
  - destruct (Hall dangling)
      as (_ & _ & _ & _ & _ & _ & _ & _ & _ & _ & _ & Hbad & _).
    apply Hbad; [|by vm_compute].
    exists {[1%Z]}. split; [by vm_compute|]. by apply elem_of_singleton.
  - destruct (Hall live_then_stale)
      as (_ & _ & _ & _ & _ & _ & _ & _ & _ & _ & _ & _ & Hrec & Hpart).
    destruct (Hpart [1%Z] 2%Z []) as (m' & Hrun & Hgone & _).
    + apply live_then_stale_complete.
    + by vm_compute.
    + intros y ->%list_elem_of_singleton. vm_compute. eauto.
    + by vm_compute.
    + destruct (Hrec KeyError m' Hrun) as (_ & Hdead & _ & _ & _ & _ & Hp).
      exists m'. split_and!; [done| |done|done].
      apply Hgone. by apply list_elem_of_singleton.
Defined.

End DemoMore.
